(** * Aloha Editor toolbar: tabs, activation predicates and the toolbar lifecycle

    A shallow embedding of [src/plugins/common/ui/lib/toolbar.js]: the local
    [Tab] class (predicate coercion, [shouldActivateForElements], [activate],
    [deactivate]) and the [Ui.toolbar] singleton ([initializeTabs], [render],
    [show], [hide], [checkActiveTabs] and the event handlers bound by
    [subscribeEventHandlers]).

    JavaScript objects that the code mutates in place are modelled by explicit
    state passing: an editable is a record holding its tabs, a tab object is
    addressed by its position in [editable.tabs], and the array handed to
    [shouldActivateForElements] is returned together with the result because
    the method pushes onto it. *)

From Stdlib Require Import String ZArith Lia.
From stdpp Require Import base list.

Set Default Proof Using "Type".

(** ** The tab widget's creation *)

(** The tabs are painted by jQuery UI Tabs, which is not among the sources.
    Which tab the widget selects when [container.tabs()] creates it is left
    open: [createSelects n] is the index selected on creation over [n]
    handles, if any.  (jQuery UI selects the first tab.) *)
Class TabWidget := {
  createSelects : nat -> option nat
}.

(** ** Values *)

Section Model.

Context {Elem : Type}.
Context {widget : TabWidget}.

(** [jQuery( el ).is( selector )]: the structural match of a DOM element
    against a selector string, supplied by jQuery. *)
Variable jq_is : Elem -> string -> bool.

(** An entry of the effective-elements array: a DOM element, the [null] that
    [shouldActivateForElements] pushes, or [undefined] (what reading an array
    past its end gives). *)
Inductive Node :=
| Null
| Undefined
| Element (el : Elem).

(** A value that may be given as [options.activateOn].  A function rule is
    represented by the truthiness of what it returns on an entry. *)
Inductive RuleValue :=
| RFunction (f : Node -> bool)
| RBoolean (b : bool)
| RString (s : string)
| RUndefined
| RNull
| RNumber (n : Z)
| RObject.

Inductive JsType :=
| TFunction | TBoolean | TString | TUndefined | TNumber | TObject.

(** The [typeof] operator on rule values ([typeof null] is ['object']). *)
Definition typeof (v : RuleValue) : JsType :=
  match v with
  | RFunction _ => TFunction
  | RBoolean _ => TBoolean
  | RString _ => TString
  | RUndefined => TUndefined
  | RNumber _ => TNumber
  | RNull | RObject => TObject
  end.

(** [coerceActivateOnToPredicate]: the [switch( typeof activateOn )].  In
    the string case [el ? jQuery( el ).is( activateOn ) : false] an element
    is truthy, [null] and [undefined] are not. *)
Definition coerceActivateOnToPredicate (activateOn : RuleValue) : Node -> bool :=
  match activateOn with
  | RFunction f => f
  | RBoolean b => fun _ => b
  | RString s =>
      fun el =>
        match el with
        | Element e => jq_is e s
        | Null | Undefined => false
        end
  | RUndefined => fun _ => true
  | RNull | RNumber _ | RObject => fun _ => false
  end.

(** ** Tab activation evaluation *)

(** [elements[ i ]]: reading past the end of a JavaScript array gives
    [undefined]. *)
Definition js_index (elements : list Node) (i : nat) : Node :=
  default Undefined (elements !! i).

(** The loop [while ( j ) { if ( shouldActivate( elements[ --j ] ) ) return
    true; } return false;].  Besides the result, the function returns the
    entries on which the predicate was called, in call order. *)
Fixpoint scanElements (shouldActivate : Node -> bool) (elements : list Node)
    (j : nat) : bool * list Node :=
  match j with
  | 0 => (false, [])
  | S j' =>
      let el := js_index elements j' in
      if shouldActivate el then (true, [el])
      else
        let '(r, calls) := scanElements shouldActivate elements j' in
        (r, el :: calls)
  end.

(** What one call of [shouldActivateForElements] leaves behind. *)
Record Evaluation := {
  result : bool;          (* the value returned *)
  elementsAfter : list Node; (* the caller's array after the call *)
  tested : list Node      (* arguments of the predicate calls, in order *)
}.

(** [Tab.prototype.shouldActivateForElements]: push [null], then scan from
    the last index down. *)
Definition shouldActivateForElements (shouldActivate : Node -> bool)
    (elements : list Node) : Evaluation :=
  let elements1 := elements ++ [Null] in
  let '(r, calls) := scanElements shouldActivate elements1 (length elements1) in
  {| result := r; elementsAfter := elements1; tested := calls |}.

(** ** Tabs and editables *)

(** A [Tab] object.  [handleVisible] is the visibility of [this.handle]
    ([show]/[hide]), [handleActive] says whether the handle carries the class
    [ui-tabs-active], [panelVisible] is the visibility of [this.panel].  The
    label, the uid and the rendered components do not take part in the
    activation protocol and are left out. *)
Record Tab := {
  index : nat;
  activated : bool;
  shouldActivate : Node -> bool;
  handleVisible : bool;
  handleActive : bool;
  panelVisible : bool
}.

(** A tab definition of [settings.toolbar.tabs]. *)
Record TabOptions := {
  activateOn : RuleValue
}.

(** An editable with its toolbar container.  [handleLists] is the number of
    [ul.aloha-toolbar-tab-handles] elements in the container and
    [handleCount] the number of [li] elements under them; [selected] is the
    tab widget's ['selected'] option; [selectCalls] records the calls
    [container.tabs( 'select', i )] in order. *)
Record Editable := {
  settingsTabs : list TabOptions;
  toolbarRendered : bool;
  tabs : list Tab;
  handleLists : nat;
  handleCount : nat;
  selected : option nat;
  selectCalls : list nat
}.

Definition withActivated (b : bool) (t : Tab) : Tab :=
  {| index := index t; activated := b; shouldActivate := shouldActivate t;
     handleVisible := handleVisible t; handleActive := handleActive t;
     panelVisible := panelVisible t |}.

Definition withHandleVisible (b : bool) (t : Tab) : Tab :=
  {| index := index t; activated := activated t;
     shouldActivate := shouldActivate t;
     handleVisible := b; handleActive := handleActive t;
     panelVisible := panelVisible t |}.

Definition withHandleActive (b : bool) (t : Tab) : Tab :=
  {| index := index t; activated := activated t;
     shouldActivate := shouldActivate t;
     handleVisible := handleVisible t; handleActive := b;
     panelVisible := panelVisible t |}.

Definition withPanelVisible (b : bool) (t : Tab) : Tab :=
  {| index := index t; activated := activated t;
     shouldActivate := shouldActivate t;
     handleVisible := handleVisible t; handleActive := handleActive t;
     panelVisible := b |}.

Definition withTabs (ts : list Tab) (ed : Editable) : Editable :=
  {| settingsTabs := settingsTabs ed; toolbarRendered := toolbarRendered ed;
     tabs := ts; handleLists := handleLists ed;
     handleCount := handleCount ed; selected := selected ed;
     selectCalls := selectCalls ed |}.

(** [Tab.prototype.show] and [Tab.prototype.hide] touch the handle only; the
    panel calls are commented out in the source. *)
Definition showTab (t : Tab) : Tab := withHandleVisible true t.
Definition hideTab (t : Tab) : Tab := withHandleVisible false t.

(** [new Tab( options, editable )]: the constructor followed by [init].  The
    handle and the panel are appended hidden. *)
Definition newTab (options : TabOptions) (ed : Editable) : Tab :=
  {| index := length (tabs ed);
     activated := false;
     shouldActivate := coerceActivateOnToPredicate (activateOn options);
     handleVisible := false;
     handleActive := false;
     panelVisible := false |}.

(** [editable.tabs.push( new Tab( tabs[i], editable ) )]: [init] appends
    the new handle to every handle list of the container, so each list
    gets one more [li]. *)
Definition pushTab (ed : Editable) (options : TabOptions) : Editable :=
  {| settingsTabs := settingsTabs ed; toolbarRendered := toolbarRendered ed;
     tabs := tabs ed ++ [newTab options ed];
     handleLists := handleLists ed;
     handleCount := handleCount ed + handleLists ed;
     selected := selected ed; selectCalls := selectCalls ed |}.

(** [jQuery( '<ul>', ... ).appendTo( container )]: every call of
    [initializeTabs] adds a handle list to the container. *)
Definition addHandleList (ed : Editable) : Editable :=
  {| settingsTabs := settingsTabs ed; toolbarRendered := toolbarRendered ed;
     tabs := tabs ed;
     handleLists := S (handleLists ed);
     handleCount := handleCount ed;
     selected := selected ed; selectCalls := selectCalls ed |}.

(** Modelled from the spec: the creation of the tab widget (not part of the
    sources) over the handles and panels of the container.  The tab that
    creation selects, [createSelects], becomes the selected index as it does
    by select(index): its panel is the visible one and its handle, and no
    other, is marked with [ui-tabs-active].  No call of [select] is
    recorded. *)
Definition widgetCreate (ed : Editable) : Editable :=
  let chosen := createSelects (length (tabs ed)) in
  {| settingsTabs := settingsTabs ed; toolbarRendered := toolbarRendered ed;
     tabs := imap (fun j t =>
                     withPanelVisible (bool_decide (chosen = Some j))
                       (withHandleActive (bool_decide (chosen = Some j)) t))
                  (tabs ed);
     handleLists := handleLists ed;
     handleCount := handleCount ed;
     selected := chosen;
     selectCalls := selectCalls ed |}.

(** [Ui.toolbar.initializeTabs]: a new handle list, one [Tab] per
    definition in order, then [container.tabs()], which creates the widget
    on a container that has none, that is, when the handle list is the
    container's first; a container that has its widget keeps it as it is.
    On an editable without toolbar the container is the empty set: nothing
    is added, and constructing the first [Tab] fails on
    [editable.toolbar.find] ([None]). *)
Definition initializeTabs (defs : list TabOptions) (ed : Editable)
    : option Editable :=
  if toolbarRendered ed then
    let filled := fold_left pushTab defs (addHandleList ed) in
    Some (if handleLists ed =? 0 then widgetCreate filled else filled)
  else
    match defs with
    | [] => Some ed
    | _ :: _ => None
    end.

(** [Ui.toolbar.render]: a new toolbar wrapper with an empty container, then
    the configured tabs, or a single unnamed tab with [activateOn: true].
    The toolbar is set before [initializeTabs] is called, so that call
    returns. *)
Definition render (ed : Editable) : Editable :=
  let defs :=
    match settingsTabs ed with
    | [] => [ {| activateOn := RBoolean true |} ]
    | _ :: _ => settingsTabs ed
    end in
  let wrapped :=
    {| settingsTabs := settingsTabs ed; toolbarRendered := true;
       tabs := tabs ed; handleLists := 0; handleCount := 0;
       selected := selected ed; selectCalls := selectCalls ed |} in
  default wrapped (initializeTabs defs wrapped).

(** ** The tab widget *)

(** Modelled from the spec: the tab widget (jQuery UI Tabs, not part of the
    sources) with the capability set { select(index), getSelectedIndex() }.
    Selecting index [i] records [i] as the selected index, makes the panel
    at position [i] the visible one and marks the handle at position [i],
    and no other, with [ui-tabs-active]. *)
Definition widgetSelect (i : nat) (ed : Editable) : Editable :=
  {| settingsTabs := settingsTabs ed; toolbarRendered := toolbarRendered ed;
     tabs := imap (fun j t =>
                     withPanelVisible (bool_decide (j = i))
                       (withHandleActive (bool_decide (j = i)) t))
                  (tabs ed);
     handleLists := handleLists ed;
     handleCount := handleCount ed;
     selected := Some i;
     selectCalls := selectCalls ed ++ [i] |}.

(** Modelled from the spec: [container.tabs( 'option', 'selected' )] is the
    widget's getSelectedIndex(), an index or none. *)
Definition widgetSelected (ed : Editable) : option nat := selected ed.

(** [container.find( '.ui-tabs-active' ).length]. *)
Definition activeHandles (ed : Editable) : nat :=
  length (filter (fun t => handleActive t = true) (tabs ed)).

(** ** Activation and deactivation *)

(** [Tab.prototype.activate], called on the tab object at position [this] of
    [editable.tabs]. *)
Definition activate (this : nat) (ed : Editable) : Editable :=
  match tabs ed !! this with
  | None => ed
  | Some t =>
      if handleCount ed =? 0 then ed
      else
        let ed1 :=
          withTabs (<[this := withActivated true (showTab t)]> (tabs ed)) ed in
        if activeHandles ed1 =? 0 then widgetSelect (index t) ed1
        else if bool_decide (widgetSelected ed1 = Some (index t))
             then widgetSelect (index t) ed1
             else ed1
  end.

(** The loop [for ( var i = 0; i < tabs.length; ++i ) if ( tabs[i].activated )]
    of [deactivate]: the first position, counted from [i], of an activated
    tab. *)
Fixpoint firstActivatedFrom (i : nat) (ts : list Tab) : option nat :=
  match ts with
  | [] => None
  | t :: ts' => if activated t then Some i else firstActivatedFrom (S i) ts'
  end.

(** [Tab.prototype.deactivate]. *)
Definition deactivate (this : nat) (ed : Editable) : Editable :=
  match tabs ed !! this with
  | None => ed
  | Some t =>
      if handleCount ed =? 0 then ed
      else
        let ed1 :=
          withTabs (<[this := withActivated false (hideTab t)]> (tabs ed)) ed in
        if bool_decide (Some (index t) = widgetSelected ed1) then
          match firstActivatedFrom 0 (tabs ed1) with
          | Some i => widgetSelect i ed1
          | None =>
              (* this.handle.removeClass( 'ui-tabs-active' ) *)
              withTabs (alter (withHandleActive false) this (tabs ed1)) ed1
          end
        else ed1
  end.

(** ** The toolbar singleton *)

(** [toolbar.active]: initialised to [null], set to an editable by [show],
    to [null] by [hide] and to [false] by the deactivation handler. *)
Inductive ActiveRef :=
| ActiveNull
| ActiveFalse
| ActiveEditable (id : nat).

Definition activeTruthy (a : ActiveRef) : bool :=
  match a with
  | ActiveEditable _ => true
  | ActiveNull | ActiveFalse => false
  end.

(** A callback registered with [setTimeout]: the time from which it may run
    and the editable captured by the closure. *)
Record Timer := {
  due : nat;
  target : nat
}.

(** [Ui.toolbar] together with the part of the environment its handlers
    use: the editable objects (addressed by position), [Aloha.eventHandled],
    a clock and the pending timeouts.  [elementVisible] is the visibility of
    the toolbar element ([fadeIn]/[fadeOut]), [attached] the editable whose
    controls are its child, [hideCalls] the editables with which
    [toolbar.hide] was called, in order. *)
Record Toolbar := {
  active : ActiveRef;
  editables : list Editable;
  elementVisible : bool;
  attached : option nat;
  eventHandled : bool;
  clock : nat;
  timers : list Timer;
  hideCalls : list nat
}.

(** A selection range: [markupEffectiveAtStart] is absent or an array;
    [checkActiveTabs] may also be called with no range at all. *)
Record Range := {
  markupEffectiveAtStart : option (list Node)
}.

Definition withEditables (eds : list Editable) (tb : Toolbar) : Toolbar :=
  {| active := active tb; editables := eds;
     elementVisible := elementVisible tb; attached := attached tb;
     eventHandled := eventHandled tb; clock := clock tb;
     timers := timers tb; hideCalls := hideCalls tb |}.

Definition withTimers (tms : list Timer) (tb : Toolbar) : Toolbar :=
  {| active := active tb; editables := editables tb;
     elementVisible := elementVisible tb; attached := attached tb;
     eventHandled := eventHandled tb; clock := clock tb;
     timers := tms; hideCalls := hideCalls tb |}.

Definition withClock (c : nat) (tb : Toolbar) : Toolbar :=
  {| active := active tb; editables := editables tb;
     elementVisible := elementVisible tb; attached := attached tb;
     eventHandled := eventHandled tb; clock := c;
     timers := timers tb; hideCalls := hideCalls tb |}.

Definition withEventHandled (b : bool) (tb : Toolbar) : Toolbar :=
  {| active := active tb; editables := editables tb;
     elementVisible := elementVisible tb; attached := attached tb;
     eventHandled := b; clock := clock tb;
     timers := timers tb; hideCalls := hideCalls tb |}.

(** [Ui.toolbar.show]. *)
Definition show (id : nat) (tb : Toolbar) : Toolbar :=
  match editables tb !! id with
  | None => tb
  | Some ed =>
      let ed1 := if toolbarRendered ed then ed else render ed in
      {| active := ActiveEditable id;
         editables := <[id := ed1]> (editables tb);
         elementVisible := true;
         attached := Some id;
         eventHandled := eventHandled tb; clock := clock tb;
         timers := timers tb; hideCalls := hideCalls tb |}
  end.

(** [Ui.toolbar.hide].  The fade-out and the detaching of the editable's
    controls when it completes are taken as one step. *)
Definition hide (id : nat) (tb : Toolbar) : Toolbar :=
  if eventHandled tb then
    {| active := active tb; editables := editables tb;
       elementVisible := elementVisible tb; attached := attached tb;
       eventHandled := eventHandled tb; clock := clock tb;
       timers := timers tb; hideCalls := hideCalls tb ++ [id] |}
  else
    {| active := ActiveNull; editables := editables tb;
       elementVisible := false;
       attached := if bool_decide (attached tb = Some id) then None
                   else attached tb;
       eventHandled := eventHandled tb; clock := clock tb;
       timers := timers tb; hideCalls := hideCalls tb ++ [id] |}.

(** ** Reconciliation on a selection change *)

(** The state threaded through the [jQuery.each] of [checkActiveTabs]: the
    active editable, the one [effective] array shared by all tabs, and the
    array as it was handed to each tab so far. *)
Record Dispatch := {
  editableAfter : Editable;
  effectiveAfter : list Node;
  passed : list (list Node)
}.

(** The callback of [jQuery.each( this.active.tabs, ... )] for the tab at
    position [i]. *)
Definition checkTab (d : Dispatch) (i : nat) : Dispatch :=
  match tabs (editableAfter d) !! i with
  | None => d
  | Some t =>
      let ev := shouldActivateForElements (shouldActivate t) (effectiveAfter d) in
      let ed := editableAfter d in
      {| editableAfter :=
           if result ev then
             (if activated t then ed else activate i ed)
           else
             (if activated t then deactivate i ed else ed);
         effectiveAfter := elementsAfter ev;
         passed := passed d ++ [effectiveAfter d] |}
  end.

Definition eachTab (ed : Editable) (effective : list Node) : Dispatch :=
  fold_left checkTab (seq 0 (length (tabs ed)))
    {| editableAfter := ed; effectiveAfter := effective; passed := [] |}.

(** The copy loop at the head of [checkActiveTabs]. *)
Definition effectiveOf (range : option Range) : list Node :=
  match range with
  | Some r =>
      match markupEffectiveAtStart r with
      | Some l => l
      | None => []
      end
  | None => []
  end.

(** What [checkActiveTabs] leaves behind: the toolbar state, the local
    [effective] array at the end of the call and the arrays handed to the
    tabs. *)
Record Check := {
  toolbarAfter : Toolbar;
  effectiveFinal : list Node;
  handed : list (list Node)
}.

(** [Ui.toolbar.checkActiveTabs]. *)
Definition checkActiveTabs (range : option Range) (tb : Toolbar) : Check :=
  let effective := effectiveOf range in
  match active tb with
  | ActiveEditable id =>
      match editables tb !! id with
      | Some ed =>
          let d := eachTab ed effective in
          {| toolbarAfter := withEditables (<[id := editableAfter d]> (editables tb)) tb;
             effectiveFinal := effectiveAfter d;
             handed := passed d |}
      | None =>
          {| toolbarAfter := tb; effectiveFinal := effective; handed := [] |}
      end
  | ActiveNull | ActiveFalse =>
      {| toolbarAfter := tb; effectiveFinal := effective; handed := [] |}
  end.

(** ** Events and time *)

Inductive Event :=
| SelectionChanged (range : option Range)
| EditableActivated (id : nat)
| EditableDeactivated (id : nat)
| MouseDown
| MouseUp.

(** The delay given to [setTimeout] by the deactivation handler. *)
Definition graceDelay : nat := 10.

(** The handlers bound in [subscribeEventHandlers]. *)
Definition handleEvent (ev : Event) (tb : Toolbar) : Toolbar :=
  match ev with
  | SelectionChanged range => toolbarAfter (checkActiveTabs range tb)
  | EditableActivated id => show id tb
  | EditableDeactivated id =>
      {| active := ActiveFalse; editables := editables tb;
         elementVisible := elementVisible tb; attached := attached tb;
         eventHandled := eventHandled tb; clock := clock tb;
         timers := timers tb ++ [ {| due := clock tb + graceDelay; target := id |} ];
         hideCalls := hideCalls tb |}
  | MouseDown => withEventHandled true tb
  | MouseUp => withEventHandled false tb
  end.

(** The body of the deferred callback:
    [if ( !toolbar.active ) toolbar.hide( alohaEvent.editable )]. *)
Definition fireTimer (tm : Timer) (tb : Toolbar) : Toolbar :=
  if activeTruthy (active tb) then tb else hide (target tm) tb.

(** Run, in registration order, the pending callbacks whose delay has
    elapsed at time [now]; the others stay pending. *)
Fixpoint runDue (now : nat) (pending : list Timer) (tb : Toolbar)
    : Toolbar * list Timer :=
  match pending with
  | [] => (tb, [])
  | tm :: rest =>
      if due tm <=? now then runDue now rest (fireTimer tm tb)
      else
        let '(tb', kept) := runDue now rest tb in
        (tb', tm :: kept)
  end.

(** Let time pass until [t]. *)
Definition advanceTo (t : nat) (tb : Toolbar) : Toolbar :=
  let now := Nat.max (clock tb) t in
  let '(tb', kept) := runDue now (timers tb) tb in
  withClock now (withTimers kept tb').

(** A timed run: each event is delivered at its time stamp, after the
    callbacks that were due by then. *)
Definition run (evs : list (nat * Event)) (tb : Toolbar) : Toolbar :=
  fold_left (fun st te => handleEvent (snd te) (advanceTo (fst te) st)) evs tb.

End Model.

(** ** States of an editable that the toolbar can produce *)

Section Invariant.

Context {Elem : Type}.
Context {widget : TabWidget}.

(** An editable before its first [show]: no toolbar, no tabs. *)
Definition blankEditable (defs : list (@TabOptions Elem)) : @Editable Elem :=
  {| settingsTabs := defs; toolbarRendered := false; tabs := [];
     handleLists := 0; handleCount := 0; selected := None;
     selectCalls := [] |}.

(** What holds of an editable once rendered: [index] is the position in
    [editable.tabs], every tab has its handle in the handle list, only the
    handle at the widget's selected index carries [ui-tabs-active], and
    while some tab is activated some handle carries it. *)
Record wellFormed (ed : @Editable Elem) : Prop := {
  wf_index : forall j t, tabs ed !! j = Some t -> index t = j;
  wf_handles : handleCount ed = length (tabs ed);
  wf_active :
    forall j t, tabs ed !! j = Some t -> handleActive t = true ->
                selected ed = Some j;
  wf_activated :
    activeHandles ed = 0 -> forall t, t ∈ tabs ed -> activated t = false
}.

(** The ways the tabs of a rendered editable change: the two transitions and
    the user's click on a tab handle, which the widget answers by selecting
    that tab. *)
Inductive TabOp :=
| OpActivate (i : nat)
| OpDeactivate (i : nat)
| OpClick (i : nat).

Definition applyOp (ed : @Editable Elem) (op : TabOp) : @Editable Elem :=
  match op with
  | OpActivate i => activate i ed
  | OpDeactivate i => deactivate i ed
  | OpClick i => if i <? length (tabs ed) then widgetSelect i ed else ed
  end.

End Invariant.

(** ** Notions used to state further properties *)

Section Derived.

Context {Elem : Type}.
Context {widget : TabWidget}.
Variable jq_is : Elem -> string -> bool.

(** The selector test of a string rule on one array entry:
    [el ? jQuery( el ).is( selector ) : false]. *)
Definition matchesSelector (s : string) (n : @Node Elem) : bool :=
  match n with
  | Element e => jq_is e s
  | Null | Undefined => false
  end.

(** Handles follow flags: a tab's handle is visible exactly when the tab is
    activated. *)
Definition handlesFollowFlags (ed : @Editable Elem) : Prop :=
  forall (j : nat) (t : @Tab Elem), tabs ed !! j = Some t ->
    handleVisible t = activated t.

(** The editable left by one [checkActiveTabs] dispatch. *)
Definition reconcile (ed : @Editable Elem) (range : option (@Range Elem))
    : @Editable Elem :=
  editableAfter (eachTab ed (effectiveOf range)).

(** The event of the deactivation handler. *)
Definition isDeactivation (ev : @Event Elem) : bool :=
  match ev with
  | EditableDeactivated _ => true
  | _ => false
  end.

(** An editable [id] is deactivated in state [tb], an editable [id'] is
    activated [d] time units later, the events [between] follow, and time
    passes until the callback of the deactivation is due.  The activation
    cancels the pending hide when [hide] has not been called by then. *)
Definition activationCancelsHide (tb : @Toolbar Elem) (id id' d : nat)
    (between : list (nat * @Event Elem)) : Prop :=
  hideCalls
    (advanceTo (clock tb + graceDelay)
       (run jq_is between
          (handleEvent jq_is (EditableActivated id')
             (advanceTo (clock tb + d)
                (handleEvent jq_is (EditableDeactivated id) tb)))))
  = hideCalls tb.

End Derived.

(** ** A concrete document: elements are tag names, a selector is one tag *)

Module Example.

Definition tagIs (el : string) (selector : string) : bool :=
  String.eqb el selector.

(** jQuery UI Tabs selects the first tab when it is created. *)
#[export] Instance firstTab : TabWidget :=
  {| createSelects n := if n =? 0 then None else Some 0 |}.

Definition lists : @TabOptions string := {| activateOn := RString "ul" |}.
Definition table : @TabOptions string := {| activateOn := RString "table" |}.
Definition always : @TabOptions string := {| activateOn := RBoolean true |}.

(** An editable with the tabs Lists, Table and an always-on tab, as its
    first [show] renders it. *)
Definition rendered : @Editable string :=
  render tagIs (blankEditable [lists; table; always]).

(** Its first tab: hidden and not activated, but the one the widget
    selected when it was created. *)
Definition tabFirst : @Tab string :=
  {| index := 0; activated := false;
     shouldActivate := coerceActivateOnToPredicate tagIs (RString "ul");
     handleVisible := false; handleActive := true; panelVisible := true |}.

(** Tabs [A(activated), B(activated), C(not activated)] with B selected:
    A and B were activated and the user clicked on B. *)
Definition abc : @Editable string :=
  fold_left applyOp [OpActivate 0; OpActivate 1; OpClick 1] rendered.

Definition tabA : @Tab string :=
  {| index := 0; activated := true;
     shouldActivate := coerceActivateOnToPredicate tagIs (RString "ul");
     handleVisible := true; handleActive := false; panelVisible := false |}.

Definition tabB : @Tab string :=
  {| index := 1; activated := true;
     shouldActivate := coerceActivateOnToPredicate tagIs (RString "table");
     handleVisible := true; handleActive := true; panelVisible := true |}.

(** A single tab, activated and therefore selected. *)
Definition single : @Editable string :=
  fold_left applyOp [OpActivate 0] (render tagIs (blankEditable [lists])).

Definition tabOnly : @Tab string :=
  {| index := 0; activated := true;
     shouldActivate := coerceActivateOnToPredicate tagIs (RString "ul");
     handleVisible := true; handleActive := true; panelVisible := true |}.

Definition tabHidden : @Tab string :=
  {| index := 0; activated := false;
     shouldActivate := coerceActivateOnToPredicate tagIs (RString "ul");
     handleVisible := false; handleActive := false; panelVisible := false |}.

(** A toolbar over the editable [abc] with the given active slot. *)
Definition toolbar (a : ActiveRef) : @Toolbar string :=
  {| active := a; editables := [abc];
     elementVisible := true; attached := Some 0; eventHandled := false;
     clock := 0; timers := []; hideCalls := [] |}.

Definition range : @Range string :=
  {| markupEffectiveAtStart := Some [Element "p"%string; Element "ul"%string] |}.

(** A tab constructed while its container has no handle list. *)
Definition orphan : @Editable string :=
  {| settingsTabs := []; toolbarRendered := false; tabs := [tabHidden];
     handleLists := 0; handleCount := 0; selected := None;
     selectCalls := [] |}.

(** The toolbar over [abc] while [Aloha.eventHandled] is set. *)
Definition toolbarHeld : @Toolbar string :=
  {| active := ActiveEditable 0; editables := [abc];
     elementVisible := true; attached := Some 0; eventHandled := true;
     clock := 0; timers := []; hideCalls := [] |}.

(** A page with two editables that were not shown yet: one with no tab
    configured, one with the Lists and Table tabs. *)
Definition untouched : @Toolbar string :=
  {| active := ActiveNull;
     editables := [blankEditable []; blankEditable [lists; table]];
     elementVisible := false; attached := None; eventHandled := false;
     clock := 0; timers := []; hideCalls := [] |}.

(** A selection inside a table. *)
Definition inTable : @Range string :=
  {| markupEffectiveAtStart := Some [Element "table"%string] |}.

(** Events that deactivate nothing. *)
Definition quiet : list (nat * @Event string) :=
  [(4, SelectionChanged (Some range)); (6, MouseDown); (7, MouseUp);
   (8, EditableActivated 0)].

(** An editing session on that page. *)
Definition session : list (nat * @Event string) :=
  [(0, EditableActivated 1); (1, SelectionChanged (Some range));
   (2, EditableDeactivated 1); (5, EditableActivated 0);
   (6, SelectionChanged None); (20, SelectionChanged (Some range))].

End Example.

(** ** Properties of the predicate coercion and of the scan *)

Section PredicateProperties.

Context {Elem : Type}.
Context {widget : TabWidget}.
Variable jq_is : Elem -> string -> bool.

Implicit Types (p : @Node Elem -> bool) (elements : list (@Node Elem)).

Lemma js_index_take elements j :
  j < length elements ->
  take (S j) elements = take j elements ++ [js_index elements j].
Proof.
  intros Hj. unfold js_index.
  destruct (lookup_lt_is_Some_2 elements j Hj) as [x Hx].
  rewrite Hx. simpl. by apply take_S_r.
Qed.

(** What the downward loop computes on the first [j] entries: either it stops
    at the last entry satisfying the predicate, having tested exactly the
    entries behind it, or it tests all of them and none satisfies it. *)
Lemma scanElements_spec p elements j :
  j <= length elements ->
  match scanElements p elements j with
  | (true, calls) =>
      exists pre x post,
        take j elements = pre ++ x :: post /\ p x = true /\
        Forall (fun y => p y = false) post /\ calls = reverse post ++ [x]
  | (false, calls) =>
      Forall (fun y => p y = false) (take j elements) /\
      calls = reverse (take j elements)
  end.
Proof.
  induction j as [|j IH]; intros Hj.
  - simpl. rewrite take_0. split; [constructor | reflexivity].
  - assert (Hlt : j < length elements) by lia.
    cbn [scanElements]. rewrite (js_index_take _ _ Hlt).
    set (el := js_index elements j).
    destruct (p el) eqn:Hp.
    + exists (take j elements), el, []. repeat split; auto.
    + specialize (IH ltac:(lia)).
      destruct (scanElements p elements j) as [[|] calls].
      * destruct IH as (pre & x & post & Htake & Hx & Hpost & Hcalls).
        exists pre, x, (post ++ [el]). rewrite Htake, <- app_assoc. simpl.
        repeat split; auto.
        -- apply Forall_app. split; [assumption | by constructor].
        -- rewrite reverse_snoc. simpl. by rewrite Hcalls.
      * destruct IH as [Hall Hcalls]. split.
        -- apply Forall_app. split; [assumption | by constructor].
        -- rewrite reverse_snoc. by rewrite Hcalls.
Qed.

Lemma shouldActivateForElements_elementsAfter p elements :
  elementsAfter (shouldActivateForElements p elements) = elements ++ [Null].
Proof.
  unfold shouldActivateForElements.
  by destruct (scanElements p (elements ++ [Null]) (length (elements ++ [Null]))).
Qed.

Lemma shouldActivateForElements_cases p elements :
  if result (shouldActivateForElements p elements) then
    exists pre x post,
      elements ++ [Null] = pre ++ x :: post /\ p x = true /\
      Forall (fun y => p y = false) post /\
      tested (shouldActivateForElements p elements) = reverse post ++ [x]
  else
    Forall (fun y => p y = false) (elements ++ [Null]) /\
    tested (shouldActivateForElements p elements) = reverse (elements ++ [Null]).
Proof.
  unfold shouldActivateForElements.
  pose proof (scanElements_spec p (elements ++ [Null])
                (length (elements ++ [Null])) (le_n _)) as H.
  rewrite firstn_all in H.
  by destruct (scanElements p (elements ++ [Null]) (length (elements ++ [Null])))
    as [[|] calls].
Qed.

Lemma shouldActivateForElements_true_iff p elements :
  result (shouldActivateForElements p elements) = true <->
  (exists x, x ∈ elements /\ p x = true) \/ p Null = true.
Proof.
  pose proof (shouldActivateForElements_cases p elements) as H.
  destruct (result (shouldActivateForElements p elements)).
  - destruct H as (pre & x & post & Heq & Hx & _ & _).
    split; [intros _ | done].
    assert (Hin : x ∈ elements ++ [Null]).
    { rewrite Heq. apply elem_of_app. right. by left. }
    apply elem_of_app in Hin as [Hin | Hin].
    + left. eauto.
    + right. apply list_elem_of_singleton in Hin. by subst.
  - destruct H as [Hall _]. split; [done |].
    rewrite Forall_forall in Hall.
    intros [(x & Hin & Hx) | Hn].
    + rewrite (Hall x) in Hx; [done |]. apply elem_of_app. by left.
    + rewrite (Hall Null) in Hn; [done |]. apply elem_of_app. right. by left.
Qed.

(** C1: [shouldActivateForElements] leaves the array with one [null]
    appended; it calls the predicate on the entries of the augmented array
    from the last one towards the first; it returns true at the first entry
    on which the predicate is true, without testing the entries before it,
    and false when the predicate is false on every entry.  Hence the result
    is true exactly when the predicate holds of an element of the original
    list or of [null]. *)
Theorem shouldActivateForElements_scans_from_end p elements :
  elementsAfter (shouldActivateForElements p elements) = elements ++ [Null] /\
  (if result (shouldActivateForElements p elements) then
     exists pre x post,
       elements ++ [Null] = pre ++ x :: post /\ p x = true /\
       Forall (fun y => p y = false) post /\
       tested (shouldActivateForElements p elements) = reverse post ++ [x]
   else
     Forall (fun y => p y = false) (elements ++ [Null]) /\
     tested (shouldActivateForElements p elements)
       = reverse (elements ++ [Null])) /\
  (result (shouldActivateForElements p elements) = true <->
   (exists x, x ∈ elements /\ p x = true) \/ p Null = true).
Proof.
  split; [apply shouldActivateForElements_elementsAfter |].
  split; [apply shouldActivateForElements_cases |].
  apply shouldActivateForElements_true_iff.
Qed.

(** C2: predicate construction is a total function of the rule value, and
    follows the type of the rule.  A function rule is the predicate itself; a
    boolean rule gives the predicate that returns that constant; a string
    rule gives a predicate that is false on an absent element and otherwise
    is the selector match; an undefined rule gives the constantly true
    predicate; every other rule gives the constantly false one. *)
Theorem coerceActivateOnToPredicate_shapes (activateOn : RuleValue) :
  match typeof activateOn with
  | TFunction =>
      exists f, activateOn = RFunction f /\
                coerceActivateOnToPredicate jq_is activateOn = f
  | TBoolean =>
      exists b, activateOn = RBoolean b /\
                forall el, coerceActivateOnToPredicate jq_is activateOn el = b
  | TString =>
      exists s, activateOn = RString s /\
        coerceActivateOnToPredicate jq_is activateOn Null = false /\
        coerceActivateOnToPredicate jq_is activateOn Undefined = false /\
        forall e, coerceActivateOnToPredicate jq_is activateOn (Element e)
                  = jq_is e s
  | TUndefined =>
      activateOn = RUndefined /\
      forall el, coerceActivateOnToPredicate jq_is activateOn el = true
  | TNumber | TObject =>
      forall el, coerceActivateOnToPredicate jq_is activateOn el = false
  end.
Proof.
  destruct activateOn; simpl; eauto.
Qed.

(** C7: a tab whose rule is [undefined] is activated by every element list,
    the empty one included, and a tab whose rule is [false] by none. *)
Theorem shouldActivateForElements_constant_rules elements :
  result (shouldActivateForElements
            (coerceActivateOnToPredicate jq_is RUndefined) elements) = true /\
  result (shouldActivateForElements
            (coerceActivateOnToPredicate jq_is (RBoolean false)) elements)
  = false.
Proof.
  split.
  - apply shouldActivateForElements_true_iff. by right.
  - apply not_true_is_false. rewrite shouldActivateForElements_true_iff.
    intros [(x & _ & Hx) | Hx]; discriminate.
Qed.

End PredicateProperties.

(** ** Properties of the tab transitions *)

Section TabProperties.

Context {Elem : Type}.
Context {widget : TabWidget}.

Implicit Types (ed : @Editable Elem) (t u : @Tab Elem) (ts : list (@Tab Elem)).

Local Abbreviation marked ts :=
  (length (filter (fun t => handleActive t = true) ts)).

Lemma marked_zero ts :
  marked ts = 0 <-> forall j t, ts !! j = Some t -> handleActive t = false.
Proof.
  induction ts as [|u ts IH].
  - split; [intros _ j t Hj; by rewrite lookup_nil in Hj | done].
  - rewrite filter_cons. destruct (decide (handleActive u = true)) as [Hu|Hu].
    + split; [done |]. intros H. specialize (H 0 u eq_refl). congruence.
    + rewrite IH. split.
      * intros H [|j] t Hj; simpl in Hj.
        -- injection Hj as <-. by apply not_true_is_false.
        -- by apply (H j).
      * intros H j t Hj. by apply (H (S j)).
Qed.

Lemma marked_same ts ts' :
  handleActive <$> ts' = handleActive <$> ts -> marked ts' = marked ts.
Proof.
  revert ts'. induction ts as [|u ts IH]; intros [|u' ts'] Heq; try done.
  simpl in Heq. injection Heq as Hu Hrest.
  rewrite !filter_cons. rewrite Hu.
  destruct (decide (handleActive u = true)); simpl; rewrite (IH _ Hrest); done.
Qed.

Lemma activeHandles_zero ed :
  activeHandles ed = 0 <->
  forall j t, tabs ed !! j = Some t -> handleActive t = false.
Proof. apply marked_zero. Qed.

Lemma activeHandles_withTabs ed ts :
  handleActive <$> ts = handleActive <$> tabs ed ->
  activeHandles (withTabs ts ed) = activeHandles ed.
Proof. intros H. unfold activeHandles. simpl. by apply marked_same. Qed.

Lemma handleActive_insert ts i t t' :
  ts !! i = Some t -> handleActive t' = handleActive t ->
  handleActive <$> <[i := t']> ts = handleActive <$> ts.
Proof.
  intros Hi Heq. rewrite list_fmap_insert, Heq.
  apply list_insert_id. by rewrite list_lookup_fmap, Hi.
Qed.

(** The tabs after the widget selected index [i]. *)
Lemma lookup_widgetSelect i ed j :
  tabs (widgetSelect i ed) !! j =
  (fun t => withPanelVisible (bool_decide (j = i))
              (withHandleActive (bool_decide (j = i)) t)) <$> tabs ed !! j.
Proof. unfold widgetSelect. simpl. apply list_lookup_imap. Qed.

Lemma length_widgetSelect i ed :
  length (tabs (widgetSelect i ed)) = length (tabs ed).
Proof. unfold widgetSelect. simpl. apply length_imap. Qed.

Lemma activeHandles_widgetSelect i ed :
  i < length (tabs ed) -> activeHandles (widgetSelect i ed) <> 0.
Proof.
  intros Hi Hz. rewrite activeHandles_zero in Hz.
  destruct (lookup_lt_is_Some_2 _ _ Hi) as [t Ht].
  specialize (Hz i (withPanelVisible (bool_decide (i = i))
                      (withHandleActive (bool_decide (i = i)) t))).
  rewrite lookup_widgetSelect, Ht in Hz. specialize (Hz eq_refl).
  simpl in Hz. by rewrite bool_decide_eq_true_2 in Hz.
Qed.

(** Unfolding of the two transitions on a rendered tab. *)
Lemma activate_unfold this ed t :
  tabs ed !! this = Some t -> handleCount ed <> 0 ->
  activate this ed =
    let ed1 :=
      withTabs (<[this := withActivated true (showTab t)]> (tabs ed)) ed in
    if bool_decide (activeHandles ed = 0 \/ widgetSelected ed = Some (index t))
    then widgetSelect (index t) ed1 else ed1.
Proof.
  intros Ht Hn. unfold activate. rewrite Ht.
  destruct (Nat.eqb_spec (handleCount ed) 0) as [|_]; [done |].
  cbv zeta. rewrite activeHandles_withTabs
    by (by apply (handleActive_insert _ _ t)).
  change (widgetSelected (withTabs _ ed)) with (widgetSelected ed).
  destruct (Nat.eqb_spec (activeHandles ed) 0) as [Hz|Hz].
  - rewrite bool_decide_eq_true_2; [done | by left].
  - destruct (decide (widgetSelected ed = Some (index t))) as [Hs|Hs].
    + rewrite (bool_decide_eq_true_2 _ Hs).
      rewrite bool_decide_eq_true_2; [done | by right].
    + rewrite (bool_decide_eq_false_2 _ Hs).
      rewrite bool_decide_eq_false_2; [done | tauto].
Qed.

Lemma deactivate_unfold this ed t :
  tabs ed !! this = Some t -> handleCount ed <> 0 ->
  deactivate this ed =
    let ed1 :=
      withTabs (<[this := withActivated false (hideTab t)]> (tabs ed)) ed in
    if bool_decide (Some (index t) = widgetSelected ed) then
      match firstActivatedFrom 0 (tabs ed1) with
      | Some i => widgetSelect i ed1
      | None => withTabs (alter (withHandleActive false) this (tabs ed1)) ed1
      end
    else ed1.
Proof.
  intros Ht Hn. unfold deactivate. rewrite Ht.
  by destruct (Nat.eqb_spec (handleCount ed) 0).
Qed.

(** The scan of [deactivate] finds the first activated tab, if any. *)
Lemma firstActivatedFrom_Some k ts i :
  firstActivatedFrom k ts = Some i ->
  exists u, k <= i /\ ts !! (i - k) = Some u /\ activated u = true /\
    forall j v, j < i - k -> ts !! j = Some v -> activated v = false.
Proof.
  revert k. induction ts as [|t ts IH]; intros k H; [done |].
  simpl in H. destruct (activated t) eqn:Ha.
  - injection H as <-. exists t. rewrite Nat.sub_diag.
    repeat split; auto. intros j v Hj. lia.
  - apply IH in H as (u & Hk & Hu & Hact & Hbefore).
    exists u. replace (i - k) with (S (i - S k)) by lia.
    repeat split; auto; [lia |].
    intros [|j] v Hj Hv; simpl in Hv.
    + by injection Hv as <-.
    + apply (Hbefore j v); [lia | done].
Qed.

Lemma firstActivatedFrom_None k ts :
  firstActivatedFrom k ts = None <->
  forall j v, ts !! j = Some v -> activated v = false.
Proof.
  revert k. induction ts as [|t ts IH]; intros k; simpl.
  - split; [intros _ j v Hj; by rewrite lookup_nil in Hj | done].
  - destruct (activated t) eqn:Ha.
    + split; [done |]. intros H. specialize (H 0 t eq_refl). congruence.
    + rewrite IH. split.
      * intros H [|j] v Hv; simpl in Hv; [by injection Hv as <- | eauto].
      * intros H j v Hv. by apply (H (S j)).
Qed.

Lemma activate_lookup_this this ed t :
  tabs ed !! this = Some t -> handleCount ed <> 0 ->
  exists t', tabs (activate this ed) !! this = Some t' /\
             activated t' = true /\ handleVisible t' = true /\
             index t' = index t.
Proof.
  intros Ht Hn.
  assert (Hlt : this < length (tabs ed)) by (by eapply lookup_lt_Some).
  rewrite (activate_unfold this ed t Ht Hn). cbv zeta.
  case_bool_decide.
  - eexists. rewrite lookup_widgetSelect. simpl.
    rewrite list_lookup_insert_eq by done. simpl. eauto.
  - eexists. simpl. rewrite list_lookup_insert_eq by done. eauto.
Qed.

Lemma handleCount_activate this ed :
  handleCount (activate this ed) = handleCount ed.
Proof.
  unfold activate. destruct (tabs ed !! this); [| done].
  destruct (handleCount ed =? 0); [done |].
  by repeat case_match.
Qed.

(** C5: on a rendered tab set, [activate] sets [activated] and shows the
    handle; it asks the widget to select this tab exactly when no handle is
    marked selected or the widget's selected index is this tab's index; its
    own update leaves every panel's visibility as it was, so panels change
    only through the widget's selection. *)
Theorem activate_selects_when_unselected_or_own this ed t :
  tabs ed !! this = Some t -> handleCount ed <> 0 ->
  let shown :=
    withTabs (<[this := withActivated true (showTab t)]> (tabs ed)) ed in
  (exists t', tabs (activate this ed) !! this = Some t' /\
              activated t' = true /\ handleVisible t' = true) /\
  (activeHandles ed = 0 \/ widgetSelected ed = Some (index t) ->
   activate this ed = widgetSelect (index t) shown /\
   selectCalls (activate this ed) = selectCalls ed ++ [index t]) /\
  (~ (activeHandles ed = 0 \/ widgetSelected ed = Some (index t)) ->
   activate this ed = shown /\
   selectCalls (activate this ed) = selectCalls ed) /\
  panelVisible <$> tabs shown = panelVisible <$> tabs ed.
Proof.
  intros Ht Hn shown.
  split.
  { destruct (activate_lookup_this this ed t Ht Hn) as (t' & ? & ? & ? & _).
    eauto. }
  rewrite (activate_unfold this ed t Ht Hn). fold shown. cbv zeta.
  split; [| split].
  - intros Hc. by rewrite bool_decide_eq_true_2.
  - intros Hc. by rewrite bool_decide_eq_false_2.
  - unfold shown. simpl. rewrite list_fmap_insert. simpl.
    apply list_insert_id. by rewrite list_lookup_fmap, Ht.
Qed.

(** C3: when the selected tab is deactivated while another tab is activated,
    the widget is asked to select the first position, counted from 0, whose
    tab is activated once this tab's flag has been cleared. *)
Theorem deactivate_selects_first_activated this ed t :
  tabs ed !! this = Some t -> handleCount ed <> 0 ->
  widgetSelected ed = Some (index t) ->
  (exists j u, j <> this /\ tabs ed !! j = Some u /\ activated u = true) ->
  let hidden :=
    withTabs (<[this := withActivated false (hideTab t)]> (tabs ed)) ed in
  exists i u,
    tabs hidden !! i = Some u /\ activated u = true /\
    (forall j v, j < i -> tabs hidden !! j = Some v -> activated v = false) /\
    i <> this /\
    deactivate this ed = widgetSelect i hidden /\
    widgetSelected (deactivate this ed) = Some i /\
    (forall j v, tabs (deactivate this ed) !! j = Some v ->
                 handleActive v = bool_decide (j = i)).
Proof.
  intros Ht Hn Hsel (j & u & Hj & Hu & Hact) hidden.
  assert (Hlt : this < length (tabs ed)) by (by eapply lookup_lt_Some).
  assert (Hthis : tabs hidden !! this = Some (withActivated false (hideTab t))).
  { unfold hidden. simpl. by apply list_lookup_insert_eq. }
  rewrite (deactivate_unfold this ed t Ht Hn). fold hidden. cbv zeta.
  rewrite bool_decide_eq_true_2 by done.
  destruct (firstActivatedFrom 0 (tabs hidden)) as [i|] eqn:Hfirst.
  - apply firstActivatedFrom_Some in Hfirst as (w & _ & Hw & Hwact & Hbefore).
    rewrite Nat.sub_0_r in Hw, Hbefore.
    exists i, w. repeat split; auto.
    + intros ->. rewrite Hthis in Hw. injection Hw as <-. discriminate.
    + intros k v Hk. rewrite lookup_widgetSelect in Hk.
      destruct (tabs hidden !! k); [| done]. by injection Hk as <-.
  - exfalso. rewrite firstActivatedFrom_None in Hfirst.
    specialize (Hfirst j u). unfold hidden in Hfirst. simpl in Hfirst.
    rewrite list_lookup_insert_ne in Hfirst by done.
    specialize (Hfirst Hu). congruence.
Qed.

(** When the selected tab is deactivated and no tab is activated
    afterwards, the class [ui-tabs-active] is on no handle any more. *)
Theorem deactivate_last_clears_selection this ed t :
  wellFormed ed -> tabs ed !! this = Some t ->
  widgetSelected ed = Some (index t) ->
  (forall j u, j <> this -> tabs ed !! j = Some u -> activated u = false) ->
  (forall u, u ∈ tabs (deactivate this ed) -> activated u = false) /\
  activeHandles (deactivate this ed) = 0 /\
  (forall u, u ∈ tabs (deactivate this ed) -> handleActive u = false).
Proof.
  intros [Hidx Hcount Hmark _] Ht Hsel Hothers.
  assert (Hlt : this < length (tabs ed)) by (by eapply lookup_lt_Some).
  assert (Hn : handleCount ed <> 0) by lia.
  rewrite (deactivate_unfold this ed t Ht Hn). cbv zeta.
  rewrite bool_decide_eq_true_2 by done.
  set (hidden := withTabs (<[this := withActivated false (hideTab t)]> (tabs ed)) ed).
  assert (Hnone : forall j v, tabs hidden !! j = Some v -> activated v = false).
  { intros j v Hv. unfold hidden in Hv. simpl in Hv.
    destruct (decide (this = j)) as [<-|Hne].
    - rewrite list_lookup_insert_eq in Hv by done. by injection Hv as <-.
    - rewrite list_lookup_insert_ne in Hv by done. by apply (Hothers j). }
  rewrite (proj2 (firstActivatedFrom_None 0 (tabs hidden)) Hnone).
  assert (Hclear : forall j v,
    alter (withHandleActive false) this (tabs hidden) !! j = Some v ->
    activated v = false /\ handleActive v = false).
  { intros j v Hv. destruct (decide (this = j)) as [<-|Hne].
    - rewrite list_lookup_alter_eq in Hv.
      destruct (tabs hidden !! this) as [w|] eqn:Hw; [| done].
      injection Hv as <-. split; [| done]. apply (Hnone this w Hw).
    - rewrite list_lookup_alter_ne in Hv by done.
      split; [by apply (Hnone j) |].
      unfold hidden in Hv. simpl in Hv.
      rewrite list_lookup_insert_ne in Hv by done.
      apply not_true_is_false. intros Hm.
      specialize (Hmark j v Hv Hm). specialize (Hidx this t Ht).
      unfold widgetSelected in Hsel. congruence. }
  split; [| split].
  - intros u [j Hu]%list_elem_of_lookup. simpl in Hu. by apply (Hclear j).
  - apply activeHandles_zero. intros j v Hv. simpl in Hv. by apply (Hclear j).
  - intros u [j Hu]%list_elem_of_lookup. simpl in Hu. by apply (Hclear j).
Qed.

(** *** The invariant of rendered editables *)

Lemma wellFormed_widgetSelect i ed :
  (forall j t, tabs ed !! j = Some t -> index t = j) ->
  handleCount ed = length (tabs ed) ->
  i < length (tabs ed) ->
  wellFormed (widgetSelect i ed).
Proof.
  intros Hidx Hcount Hi. split.
  - intros j t Hj. rewrite lookup_widgetSelect in Hj.
    destruct (tabs ed !! j) as [u|] eqn:Hu; [| done].
    injection Hj as <-. simpl. by apply Hidx.
  - by rewrite length_widgetSelect.
  - intros j t Hj Hm. rewrite lookup_widgetSelect in Hj.
    destruct (tabs ed !! j) as [u|]; [| done].
    injection Hj as <-. simpl in Hm. apply bool_decide_eq_true_1 in Hm.
    by subst.
  - intros Hz. by apply activeHandles_widgetSelect in Hz.
Qed.

Lemma lookup_insert_cases ts i t' j v :
  <[i := t']> ts !! j = Some v ->
  (j = i /\ v = t') \/ (j <> i /\ ts !! j = Some v).
Proof.
  intros Hv. destruct (decide (i = j)) as [<-|Hne].
  - left. split; [done |].
    destruct (decide (i < length ts)) as [Hlt|Hge].
    + rewrite list_lookup_insert_eq in Hv by done. by injection Hv.
    + rewrite list_insert_ge in Hv by lia.
      apply lookup_lt_Some in Hv. lia.
  - right. rewrite list_lookup_insert_ne in Hv by done. split; [auto | done].
Qed.

Lemma lookup_alter_cases (f : Tab -> Tab) ts i j v :
  alter f i ts !! j = Some v ->
  (j = i /\ exists w, ts !! j = Some w /\ v = f w) \/
  (j <> i /\ ts !! j = Some v).
Proof.
  intros Hv. destruct (decide (i = j)) as [<-|Hne].
  - left. split; [done |]. rewrite list_lookup_alter_eq in Hv.
    destruct (ts !! i) as [w|]; simpl in Hv; [| done].
    injection Hv as <-. eauto.
  - right. rewrite list_lookup_alter_ne in Hv by done. split; [auto | done].
Qed.

(** What the same call leaves in place: the widget's selected index still
    is this tab's index, no call of [select] is made and every panel is as
    visible as before. *)
Lemma deactivate_last_leaves_widget_selection this ed t :
  tabs ed !! this = Some t -> handleCount ed <> 0 ->
  widgetSelected ed = Some (index t) ->
  (forall j u, j <> this -> tabs ed !! j = Some u -> activated u = false) ->
  widgetSelected (deactivate this ed) = Some (index t) /\
  selectCalls (deactivate this ed) = selectCalls ed /\
  panelVisible <$> tabs (deactivate this ed) = panelVisible <$> tabs ed.
Proof.
  intros Ht Hn Hsel Hothers.
  assert (Hlt : this < length (tabs ed)) by (by eapply lookup_lt_Some).
  rewrite (deactivate_unfold this ed t Ht Hn). cbv zeta.
  rewrite bool_decide_eq_true_2 by done.
  set (hidden := withTabs (<[this := withActivated false (hideTab t)]> (tabs ed)) ed).
  assert (Hnone : forall j v, tabs hidden !! j = Some v -> activated v = false).
  { intros j v Hv. unfold hidden in Hv. simpl in Hv.
    apply lookup_insert_cases in Hv as [[-> ->]|[Hne Hv]]; [done |].
    by apply (Hothers j). }
  rewrite (proj2 (firstActivatedFrom_None 0 (tabs hidden)) Hnone).
  split; [exact Hsel |]. split; [done |].
  apply list_eq. intros j. rewrite !list_lookup_fmap.
  change (tabs (withTabs (alter (withHandleActive false) this (tabs hidden))
                  hidden))
    with (alter (withHandleActive false) this (tabs hidden)).
  destruct (decide (this = j)) as [<-|Hne].
  - rewrite list_lookup_alter_eq. unfold hidden. simpl.
    rewrite list_lookup_insert_eq by done. by rewrite Ht.
  - rewrite list_lookup_alter_ne by done. unfold hidden. simpl.
    by rewrite list_lookup_insert_ne.
Qed.

Lemma wellFormed_activate this ed :
  wellFormed ed -> wellFormed (activate this ed).
Proof.
  intros Hwf. destruct (tabs ed !! this) as [t|] eqn:Ht;
    [| unfold activate; by rewrite Ht].
  destruct (decide (handleCount ed = 0)) as [Hz|Hn].
  { unfold activate. rewrite Ht, Hz. done. }
  destruct Hwf as [Hidx Hcount Hmark Hact].
  assert (Hlt : this < length (tabs ed)) by (by eapply lookup_lt_Some).
  rewrite (activate_unfold this ed t Ht Hn). cbv zeta.
  set (shown := withTabs _ ed).
  assert (Hidx' : forall j v, tabs shown !! j = Some v -> index v = j).
  { intros j v Hv. unfold shown in Hv. simpl in Hv.
    apply lookup_insert_cases in Hv as [[-> ->]|[_ Hv]]; simpl; eauto. }
  assert (Hlen : length (tabs shown) = length (tabs ed)).
  { unfold shown. simpl. apply length_insert. }
  case_bool_decide as Hc.
  - apply wellFormed_widgetSelect; auto.
    + by rewrite Hlen.
    + rewrite Hlen, (Hidx this t Ht). done.
  - split; auto.
    + by rewrite Hlen.
    + intros j v Hv Hm. unfold shown in Hv. simpl in Hv.
      apply lookup_insert_cases in Hv as [[-> ->]|[_ Hv]].
      * by apply (Hmark this t).
      * by apply (Hmark j v).
    + unfold shown. rewrite activeHandles_withTabs
        by (by apply (handleActive_insert _ _ t)).
      intros Hz. tauto.
Qed.

Lemma wellFormed_deactivate this ed :
  wellFormed ed -> wellFormed (deactivate this ed).
Proof.
  intros Hwf. destruct (tabs ed !! this) as [t|] eqn:Ht;
    [| unfold deactivate; by rewrite Ht].
  destruct (decide (handleCount ed = 0)) as [Hz|Hn].
  { unfold deactivate. rewrite Ht, Hz. done. }
  destruct Hwf as [Hidx Hcount Hmark Hact].
  assert (Hlt : this < length (tabs ed)) by (by eapply lookup_lt_Some).
  rewrite (deactivate_unfold this ed t Ht Hn). cbv zeta.
  set (hidden := withTabs _ ed).
  assert (Hidx' : forall j v, tabs hidden !! j = Some v -> index v = j).
  { intros j v Hv. unfold hidden in Hv. simpl in Hv.
    apply lookup_insert_cases in Hv as [[-> ->]|[_ Hv]]; simpl; eauto. }
  assert (Hlen : length (tabs hidden) = length (tabs ed)).
  { unfold hidden. simpl. apply length_insert. }
  assert (Hmark' : forall j v, tabs hidden !! j = Some v ->
                               handleActive v = true -> selected ed = Some j).
  { intros j v Hv Hm. unfold hidden in Hv. simpl in Hv.
    apply lookup_insert_cases in Hv as [[-> ->]|[_ Hv]].
    - by apply (Hmark this t).
    - by apply (Hmark j v). }
  case_bool_decide as Hc.
  - destruct (firstActivatedFrom 0 (tabs hidden)) as [i|] eqn:Hfirst.
    + apply firstActivatedFrom_Some in Hfirst as (w & _ & Hw & _).
      rewrite Nat.sub_0_r in Hw. apply lookup_lt_Some in Hw.
      apply wellFormed_widgetSelect; auto. by rewrite Hlen.
    + rewrite firstActivatedFrom_None in Hfirst. split; simpl.
      * intros j v Hv.
        apply lookup_alter_cases in Hv as [[-> (w & Hw & ->)]|[_ Hv]];
          simpl; eauto.
      * by rewrite length_alter, length_insert.
      * intros j v Hv Hm.
        apply lookup_alter_cases in Hv as [[-> (w & Hw & ->)]|[_ Hv]];
          [done | eauto].
      * intros _ v [j Hv]%list_elem_of_lookup.
        apply lookup_alter_cases in Hv as [[-> (w & Hw & ->)]|[_ Hv]];
          simpl; eauto.
  - split; auto.
    + by rewrite Hlen.
    + unfold hidden. rewrite activeHandles_withTabs
        by (by apply (handleActive_insert _ _ t)).
      intros Hz v [j Hv]%list_elem_of_lookup. simpl in Hv.
      apply lookup_insert_cases in Hv as [[-> ->]|[_ Hv]]; [reflexivity |].
      apply (Hact Hz). apply list_elem_of_lookup. eauto.
Qed.

Lemma wellFormed_applyOp ed op :
  wellFormed ed -> wellFormed (applyOp ed op).
Proof.
  intros Hwf. destruct op as [i|i|i]; simpl.
  - by apply wellFormed_activate.
  - by apply wellFormed_deactivate.
  - destruct (Nat.ltb_spec i (length (tabs ed))); [| done].
    destruct Hwf. by apply wellFormed_widgetSelect.
Qed.

Lemma wellFormed_applyOps ops ed :
  wellFormed ed -> wellFormed (fold_left applyOp ops ed).
Proof.
  revert ed. induction ops as [|op ops IH]; intros ed Hwf; simpl; [done |].
  apply IH. by apply wellFormed_applyOp.
Qed.

Local Abbreviation pristine ed :=
  ((forall j t, tabs ed !! j = Some t ->
      index t = j /\ activated t = false /\ handleVisible t = false) /\
   handleCount ed = length (tabs ed) /\ handleLists ed = 1).

Lemma pushTab_pristine jq_is ed (options : @TabOptions Elem) :
  pristine ed -> pristine (pushTab jq_is ed options).
Proof.
  intros (Htabs & Hcount & Hlists). split; [| split]; simpl.
  - intros j t Hj. apply lookup_app_Some in Hj as [Hj|[Hge Hj]]; [eauto |].
    apply list_lookup_singleton_Some in Hj as [Hj <-]. simpl.
    split; [lia | done].
  - rewrite length_app. simpl. lia.
  - done.
Qed.

Lemma pushTabs_pristine jq_is (defs : list (@TabOptions Elem)) ed :
  pristine ed -> pristine (fold_left (pushTab jq_is) defs ed).
Proof.
  revert ed. induction defs as [|d defs IH]; intros ed Hp; [done |].
  simpl. apply IH. by apply pushTab_pristine.
Qed.

(** The tabs after the widget was created. *)
Lemma lookup_widgetCreate ed j :
  tabs (widgetCreate ed) !! j =
  (fun t =>
     withPanelVisible
       (bool_decide (createSelects (length (tabs ed)) = Some j))
       (withHandleActive
          (bool_decide (createSelects (length (tabs ed)) = Some j)) t))
  <$> tabs ed !! j.
Proof. unfold widgetCreate. simpl. apply list_lookup_imap. Qed.

Lemma wellFormed_widgetCreate ed :
  pristine ed -> wellFormed (widgetCreate ed).
Proof.
  intros (Htabs & Hcount & _). split.
  - intros j t Hj. rewrite lookup_widgetCreate in Hj.
    destruct (tabs ed !! j) as [u|] eqn:Hu; [| done].
    injection Hj as <-. simpl. by apply (Htabs j u).
  - simpl. by rewrite length_imap.
  - intros j t Hj Hm. rewrite lookup_widgetCreate in Hj.
    destruct (tabs ed !! j) as [u|]; [| done].
    injection Hj as <-. simpl in Hm. by apply bool_decide_eq_true_1 in Hm.
  - intros _ t [j Hj]%list_elem_of_lookup. rewrite lookup_widgetCreate in Hj.
    destruct (tabs ed !! j) as [u|] eqn:Hu; [| done].
    injection Hj as <-. simpl. by apply (Htabs j u).
Qed.

(** What [render] builds on an editable that has its toolbar set:
    [initializeTabs] returns. *)
Lemma render_unfold jq_is ed :
  render jq_is ed =
  widgetCreate
    (fold_left (pushTab jq_is)
       (match settingsTabs ed with
        | [] => [ {| activateOn := RBoolean true |} ]
        | _ :: _ => settingsTabs ed
        end)
       {| settingsTabs := settingsTabs ed; toolbarRendered := true;
          tabs := tabs ed; handleLists := 1; handleCount := 0;
          selected := selected ed; selectCalls := selectCalls ed |}).
Proof. reflexivity. Qed.

(** The first [show] of an editable renders a well-formed tab set. *)
Lemma wellFormed_render jq_is (defs : list (@TabOptions Elem)) :
  wellFormed (render jq_is (blankEditable defs)).
Proof.
  rewrite render_unfold. apply wellFormed_widgetCreate.
  apply pushTabs_pristine. simpl. split; [| done].
  intros j t Hj. by rewrite lookup_nil in Hj.
Qed.

(** X8: calling [activate] twice in succession gives the selected index and the
    activation flags of calling it once, whatever the state. *)
Lemma activate_twice this ed :
  widgetSelected (activate this (activate this ed))
    = widgetSelected (activate this ed) /\
  activated <$> tabs (activate this (activate this ed))
    = activated <$> tabs (activate this ed).
Proof.
  destruct (tabs ed !! this) as [t|] eqn:Ht;
    [| unfold activate; by rewrite !Ht].
  destruct (decide (handleCount ed = 0)) as [Hz|Hn].
  { unfold activate. rewrite Ht, Hz. simpl. by rewrite Ht, Hz. }
  destruct (activate_lookup_this this ed t Ht Hn) as (t1 & Ht1 & Hact1 & _ & Hidx1).
  assert (Hn1 : handleCount (activate this ed) <> 0)
    by (by rewrite handleCount_activate).
  rewrite (activate_unfold this (activate this ed) t1 Ht1 Hn1). cbv zeta.
  set (ed1 := activate this ed) in *.
  assert (Hsame : activated <$> <[this := withActivated true (showTab t1)]> (tabs ed1)
                  = activated <$> tabs ed1).
  { rewrite list_fmap_insert. apply list_insert_id.
    rewrite list_lookup_fmap, Ht1. simpl. by rewrite Hact1. }
  case_bool_decide as Hc; [| by simpl].
  split.
  - simpl. destruct Hc as [Hz|Hs]; [| by rewrite Hs].
    unfold ed1 in *. rewrite (activate_unfold this ed t Ht Hn) in Hz |- *.
    cbv zeta in *. rewrite Hidx1. case_bool_decide as Hc0; [done |].
    rewrite activeHandles_withTabs in Hz
      by (by apply (handleActive_insert _ _ t)).
    tauto.
  - rewrite <- Hsame. apply list_eq. intros j.
    rewrite !list_lookup_fmap, lookup_widgetSelect. simpl.
    by destruct (_ !! j).
Qed.

(** C6: calling [activate] on a tab that is already activated leaves it
    activated and leaves the widget's selected index as it was. *)
Theorem activate_idempotent this ed t :
  wellFormed ed -> tabs ed !! this = Some t -> activated t = true ->
  (exists t', tabs (activate this ed) !! this = Some t' /\
              activated t' = true) /\
  widgetSelected (activate this ed) = widgetSelected ed.
Proof.
  intros [Hidx Hcount Hmark Hact] Ht Hon.
  assert (Hlt : this < length (tabs ed)) by (by eapply lookup_lt_Some).
  assert (Hn : handleCount ed <> 0) by lia.
  split.
  - destruct (activate_lookup_this this ed t Ht Hn) as (t' & ? & ? & _). eauto.
  - rewrite (activate_unfold this ed t Ht Hn). cbv zeta.
    case_bool_decide as Hc; [| done].
    destruct Hc as [Hz|Hs]; [| by rewrite Hs].
    exfalso. assert (Hin : t ∈ tabs ed) by (apply list_elem_of_lookup; eauto).
    specialize (Hact Hz t Hin). congruence.
Qed.

End TabProperties.

(** ** Properties of the reconciliation on a selection change *)

Section DispatchProperties.

Context {Elem : Type}.
Context {widget : TabWidget}.

Implicit Types (ed : @Editable Elem) (d : @Dispatch Elem)
  (tb : @Toolbar Elem) (range : option (@Range Elem)).

Lemma length_tabs_activate this ed :
  length (tabs (activate this ed)) = length (tabs ed).
Proof.
  unfold activate. destruct (tabs ed !! this); [| done].
  destruct (handleCount ed =? 0); [done |].
  repeat case_match; rewrite ?length_widgetSelect; simpl;
    by rewrite length_insert.
Qed.

Lemma length_tabs_deactivate this ed :
  length (tabs (deactivate this ed)) = length (tabs ed).
Proof.
  unfold deactivate. destruct (tabs ed !! this); [| done].
  destruct (handleCount ed =? 0); [done |].
  repeat case_match; rewrite ?length_widgetSelect; simpl;
    rewrite ?length_alter; by rewrite length_insert.
Qed.

(** One step of the [jQuery.each]: the tab receives the shared array as the
    previous tabs left it and leaves one more [null] on it. *)
Lemma checkTab_step d i :
  i < length (tabs (editableAfter d)) ->
  length (tabs (editableAfter (checkTab d i))) = length (tabs (editableAfter d)) /\
  effectiveAfter (checkTab d i) = effectiveAfter d ++ [Null] /\
  passed (checkTab d i) = passed d ++ [effectiveAfter d].
Proof.
  intros Hi. unfold checkTab.
  destruct (lookup_lt_is_Some_2 _ _ Hi) as [t ->]. simpl.
  split; [| split; [apply shouldActivateForElements_elementsAfter | done]].
  repeat case_match;
    by rewrite ?length_tabs_activate, ?length_tabs_deactivate.
Qed.

Lemma eachTab_from d k m :
  k + m <= length (tabs (editableAfter d)) ->
  effectiveAfter (fold_left checkTab (seq k m) d)
    = effectiveAfter d ++ replicate m Null /\
  passed (fold_left checkTab (seq k m) d)
    = passed d ++ ((fun i => effectiveAfter d ++ replicate i Null) <$> seq 0 m).
Proof.
  revert k d. induction m as [|m IH]; intros k d Hk.
  - simpl. by rewrite !app_nil_r.
  - cbn [seq fold_left].
    destruct (checkTab_step d k ltac:(lia)) as (Hlen & Heff & Hpassed).
    destruct (IH (S k) (checkTab d k) ltac:(lia)) as [IHeff IHpassed].
    rewrite IHeff, IHpassed, Heff, Hpassed, <- !app_assoc.
    split; [done |]. f_equal. cbn [fmap list_fmap replicate].
    rewrite app_nil_r. simpl. f_equal.
    rewrite <- fmap_S_seq, <- list_fmap_compose.
    apply list_fmap_ext. intros _ i _. simpl. by rewrite <- app_assoc.
Qed.

(** C10: [shouldActivateForElements] leaves the caller's array with one
    [null] appended.  In one [checkActiveTabs] dispatch over the tabs of the
    active editable, the array handed to the tab at position [k] is the
    effective-element list followed by [k] nulls left by the tabs before it,
    and when the dispatch ends the array carries one [null] per tab. *)
Theorem checkActiveTabs_shares_effective range tb id ed :
  active tb = ActiveEditable id -> editables tb !! id = Some ed ->
  (forall (p : @Node Elem -> bool) es,
     elementsAfter (shouldActivateForElements p es) = es ++ [Null]) /\
  length (handed (checkActiveTabs range tb)) = length (tabs ed) /\
  (forall k, k < length (tabs ed) ->
     handed (checkActiveTabs range tb) !! k
     = Some (effectiveOf range ++ replicate k Null)) /\
  effectiveFinal (checkActiveTabs range tb)
    = effectiveOf range ++ replicate (length (tabs ed)) Null.
Proof.
  intros Hactive Hed. split; [apply shouldActivateForElements_elementsAfter |].
  unfold checkActiveTabs. rewrite Hactive, Hed. simpl. unfold eachTab.
  match goal with |- context [fold_left checkTab _ ?d0] =>
    destruct (eachTab_from d0 0 (length (tabs ed)) (le_n _)) as [Heff Hpassed]
  end.
  rewrite Heff, Hpassed. simpl.
  split; [by rewrite length_fmap, length_seq |]. split; [| done].
  intros k Hk. rewrite list_lookup_fmap, lookup_seq_lt by done. done.
Qed.

(** C8: without an active editable, [checkActiveTabs] changes nothing: the
    toolbar state, and with it every tab of every editable, is as before
    and no tab is evaluated. *)
Theorem checkActiveTabs_inactive_noop range tb :
  activeTruthy (active tb) = false ->
  toolbarAfter (checkActiveTabs range tb) = tb /\
  handed (checkActiveTabs range tb) = [] /\
  (forall id ed, editables tb !! id = Some ed ->
     editables (toolbarAfter (checkActiveTabs range tb)) !! id = Some ed).
Proof.
  intros Hoff. unfold checkActiveTabs.
  destruct (active tb); simpl in *; by try discriminate.
Qed.

End DispatchProperties.

(** ** Properties of the deferred hide *)

Section TimerProperties.

Context {Elem : Type}.
Context {widget : TabWidget}.
Variable jq_is : Elem -> string -> bool.

Implicit Types (tb : @Toolbar Elem) (tm : Timer) (pending : list Timer).

(** The callbacks run are exactly those whose delay has elapsed, in
    registration order; the others stay pending. *)
Lemma runDue_spec now pending tb :
  runDue now pending tb =
  (fold_left (fun st tm => fireTimer tm st)
     (filter (fun tm => due tm <= now) pending) tb,
   filter (fun tm => now < due tm) pending).
Proof.
  revert tb. induction pending as [|tm rest IH]; intros tb; [done |].
  cbn [runDue]. rewrite !filter_cons.
  destruct (Nat.leb_spec (due tm) now) as [Hle|Hgt].
  - rewrite decide_True by done. rewrite decide_False by lia.
    by rewrite IH.
  - rewrite decide_False by lia. rewrite decide_True by done.
    by rewrite IH.
Qed.

Lemma fireTimer_active tm tb :
  activeTruthy (active tb) = true -> fireTimer tm tb = tb.
Proof. intros H. unfold fireTimer. by rewrite H. Qed.

Lemma fireTimer_inactive tm tb :
  activeTruthy (active tb) = false -> fireTimer tm tb = hide (target tm) tb.
Proof. intros H. unfold fireTimer. by rewrite H. Qed.

Lemma fireTimers_active pending tb :
  activeTruthy (active tb) = true ->
  fold_left (fun st tm => fireTimer tm st) pending tb = tb.
Proof.
  intros H. induction pending as [|tm rest IH]; [done |].
  simpl. by rewrite fireTimer_active.
Qed.

(** While an editable holds the active slot, letting time pass only retires
    the callbacks that came due. *)
Lemma advanceTo_active t tb :
  activeTruthy (active tb) = true ->
  advanceTo t tb =
  withClock (Nat.max (clock tb) t)
    (withTimers (filter (fun tm => Nat.max (clock tb) t < due tm) (timers tb)) tb).
Proof.
  intros H. unfold advanceTo. rewrite runDue_spec.
  by rewrite fireTimers_active.
Qed.

Lemma advanceTo_before t tb :
  Forall (fun tm => Nat.max (clock tb) t < due tm) (timers tb) ->
  advanceTo t tb = withClock (Nat.max (clock tb) t) tb.
Proof.
  intros Hall. unfold advanceTo. rewrite runDue_spec.
  assert (Hnone : filter (fun tm => due tm <= Nat.max (clock tb) t) (timers tb) = []).
  { induction Hall as [|tm rest Htm _ IH]; [done |].
    rewrite filter_cons, decide_False by lia. done. }
  assert (Hall' : filter (fun tm => Nat.max (clock tb) t < due tm) (timers tb)
                  = timers tb).
  { clear Hnone. induction Hall as [|tm rest Htm _ IH]; [done |].
    rewrite filter_cons, decide_True by lia. by rewrite IH. }
  rewrite Hnone, Hall'. simpl. by destruct tb.
Qed.

Lemma editables_fireTimers pending tb :
  editables (fold_left (fun st tm => fireTimer tm st) pending tb)
  = editables tb.
Proof.
  revert tb. induction pending as [|tm rest IH]; intros tb; [done |].
  simpl. rewrite IH. unfold fireTimer, hide.
  by repeat case_match.
Qed.

Lemma editables_advanceTo (now : nat) tb :
  editables (advanceTo now tb) = editables tb.
Proof.
  unfold advanceTo. rewrite runDue_spec. simpl. apply editables_fireTimers.
Qed.

Lemma timers_advanceTo t tb :
  timers (advanceTo t tb)
  = filter (fun tm => Nat.max (clock tb) t < due tm) (timers tb).
Proof. unfold advanceTo. by rewrite runDue_spec. Qed.

(** An event other than a deactivation leaves an editable in the active
    slot, the toolbar displayed and [hide] uncalled. *)
Lemma handleEvent_keeps_active ev tb :
  isDeactivation ev = false ->
  activeTruthy (active tb) = true -> elementVisible tb = true ->
  activeTruthy (active (handleEvent jq_is ev tb)) = true /\
  elementVisible (handleEvent jq_is ev tb) = true /\
  hideCalls (handleEvent jq_is ev tb) = hideCalls tb.
Proof.
  intros Hev Hact Hvis. destruct ev as [range|id|id| |]; simpl in *;
    try done.
  - unfold checkActiveTabs. destruct (active tb) eqn:Ha; try done.
    destruct (editables tb !! _); simpl; rewrite ?Ha; auto.
  - unfold show. destruct (editables tb !! id); simpl; auto.
Qed.

Lemma run_keeps_active later tb :
  Forall (fun te => isDeactivation (snd te) = false) later ->
  activeTruthy (active tb) = true -> elementVisible tb = true ->
  activeTruthy (active (run jq_is later tb)) = true /\
  elementVisible (run jq_is later tb) = true /\
  hideCalls (run jq_is later tb) = hideCalls tb.
Proof.
  intros Hall. revert tb. unfold run.
  induction Hall as [|[t ev] later Hev _ IH]; intros tb Hact Hvis; [done |].
  cbn [fold_left fst snd].
  assert (Hadv : advanceTo t tb =
            withClock (Nat.max (clock tb) t)
              (withTimers
                 (filter (fun tm => Nat.max (clock tb) t < due tm) (timers tb))
                 tb)) by (by apply advanceTo_active).
  destruct (handleEvent_keeps_active ev (advanceTo t tb) Hev)
    as (Hact' & Hvis' & Hcalls'); [by rewrite Hadv | by rewrite Hadv |].
  destruct (IH _ Hact' Hvis') as (? & ? & Hcalls).
  repeat split; [done | done |].
  rewrite Hcalls, Hcalls', Hadv. done.
Qed.


End TimerProperties.

(** ** Further properties of the scan and of the rule shapes *)

Section ScanProperties.

Context {Elem : Type}.
Context {widget : TabWidget}.
Variable jq_is : Elem -> string -> bool.

Implicit Types (p : @Node Elem -> bool) (elements : list (@Node Elem)).

Lemma scanElements_calls_bound p elements j :
  length (snd (scanElements p elements j)) <= j.
Proof.
  induction j as [|j IH]; simpl; [done |].
  destruct (p (js_index elements j)); simpl; [lia |].
  destruct (scanElements p elements j) as [r calls]. simpl in *. lia.
Qed.

(** The nulls left on the shared array by earlier evaluations do not change
    what a tab answers. *)
Lemma result_trailing_nulls p elements n :
  result (shouldActivateForElements p (elements ++ replicate n Null))
  = result (shouldActivateForElements p elements).
Proof.
  apply eq_true_iff_eq. rewrite !shouldActivateForElements_true_iff.
  split; (intros [(x & Hin & Hx) | Hn]; [| by right]).
  - apply elem_of_app in Hin as [Hin | Hin]; [left; eauto |].
    apply elem_of_replicate in Hin as [-> _]. by right.
  - left. exists x. split; [| done]. apply elem_of_app. by left.
Qed.

Lemma result_constant_true p elements :
  p Null = true -> result (shouldActivateForElements p elements) = true.
Proof. intros H. apply shouldActivateForElements_true_iff. by right. Qed.

(** X1: the answer of [shouldActivateForElements] does not depend on how many
    nulls trail the element list. *)
Theorem shouldActivateForElements_ignores_trailing_nulls p elements n :
  result (shouldActivateForElements p (elements ++ replicate n Null))
  = result (shouldActivateForElements p elements).
Proof. apply result_trailing_nulls. Qed.

(** X2: the predicate is always called at least once, first on the pushed
    [null], and at most once per entry of the augmented array. *)
Theorem shouldActivateForElements_tests_null_first p elements :
  (exists rest, tested (shouldActivateForElements p elements) = Null :: rest) /\
  length (tested (shouldActivateForElements p elements)) <= S (length elements).
Proof.
  unfold shouldActivateForElements.
  pose proof (scanElements_calls_bound p (elements ++ [Null])
                (length (elements ++ [Null]))) as Hlen.
  rewrite length_app in *. simpl in *.
  replace (length elements + 1) with (S (length elements)) in * by lia.
  cbn [scanElements] in *.
  assert (Hnull : js_index (elements ++ [Null]) (length elements) = Null).
  { unfold js_index. by rewrite lookup_app_r, Nat.sub_diag by lia. }
  rewrite Hnull in *.
  destruct (p Null); simpl in *; [split; [eauto | lia] |].
  destruct (scanElements p (elements ++ [Null]) (length elements))
    as [r calls]; simpl in *.
  split; [eauto | lia].
Qed.

(** X3: what each rule shape answers on a whole element list: a boolean rule
    answers its constant, a string rule answers whether some element of the
    list matches the selector (so it is false on the empty list), and a rule
    of an unsupported type answers false. *)
Theorem shouldActivateForElements_by_rule (activateOn : RuleValue) elements :
  match activateOn with
  | RBoolean b =>
      result (shouldActivateForElements
                (coerceActivateOnToPredicate jq_is activateOn) elements) = b
  | RString s =>
      result (shouldActivateForElements
                (coerceActivateOnToPredicate jq_is activateOn) elements)
      = existsb (matchesSelector jq_is s) elements
  | RNull | RNumber _ | RObject =>
      result (shouldActivateForElements
                (coerceActivateOnToPredicate jq_is activateOn) elements) = false
  | RFunction _ | RUndefined => True
  end.
Proof.
  destruct activateOn as [f|b|s| | |n| ]; try exact I.
  - destruct b.
    + apply shouldActivateForElements_true_iff. by right.
    + apply not_true_is_false. rewrite shouldActivateForElements_true_iff.
      intros [(x & _ & Hx) | Hx]; discriminate.
  - apply eq_true_iff_eq. rewrite shouldActivateForElements_true_iff.
    rewrite existsb_exists. split.
    + intros [(x & Hin & Hx) | Hx]; [| discriminate].
      exists x. split; [by apply list_elem_of_In | done].
    + intros (x & Hin & Hx). left. exists x.
      split; [by apply list_elem_of_In | done].
  - apply not_true_is_false. rewrite shouldActivateForElements_true_iff.
    intros [(x & _ & Hx) | Hx]; discriminate.
  - apply not_true_is_false. rewrite shouldActivateForElements_true_iff.
    intros [(x & _ & Hx) | Hx]; discriminate.
  - apply not_true_is_false. rewrite shouldActivateForElements_true_iff.
    intros [(x & _ & Hx) | Hx]; discriminate.
Qed.

End ScanProperties.

(** ** Further properties of the tab transitions *)

Section TransitionFrames.

Context {Elem : Type}.
Context {widget : TabWidget}.

Implicit Types (ed : @Editable Elem) (t u : @Tab Elem).

(** A field that the widget's selection does not write is the same in every
    tab after [select]. *)
Lemma fmap_widgetSelect {B} (f : @Tab Elem -> B) i ed :
  (forall b b' t, f (withPanelVisible b (withHandleActive b' t)) = f t) ->
  f <$> tabs (widgetSelect i ed) = f <$> tabs ed.
Proof.
  intros Hf. apply list_eq. intros j.
  rewrite !list_lookup_fmap, lookup_widgetSelect.
  destruct (tabs ed !! j); simpl; by rewrite ?Hf.
Qed.

Lemma fmap_alter_unmark {B} (f : @Tab Elem -> B) i (ts : list (@Tab Elem)) :
  (forall b t, f (withHandleActive b t) = f t) ->
  f <$> alter (withHandleActive false) i ts = f <$> ts.
Proof.
  intros Hf. apply list_eq. intros j.
  rewrite !list_lookup_fmap.
  destruct (decide (i = j)) as [<-|Hne].
  - rewrite list_lookup_alter_eq. destruct (ts !! i); simpl; by rewrite ?Hf.
  - by rewrite list_lookup_alter_ne.
Qed.

Lemma handleCount_deactivate this ed :
  handleCount (deactivate this ed) = handleCount ed.
Proof.
  unfold deactivate. destruct (tabs ed !! this); [| done].
  destruct (handleCount ed =? 0); [done |].
  by repeat case_match.
Qed.

(** The activation flags after a transition that passed its guard. *)
Lemma activated_activate this ed :
  handleCount ed <> 0 ->
  activated <$> tabs (activate this ed) = <[this := true]> (activated <$> tabs ed).
Proof.
  intros Hn. destruct (tabs ed !! this) as [t|] eqn:Ht.
  - rewrite (activate_unfold this ed t Ht Hn). cbv zeta.
    case_bool_decide; rewrite ?fmap_widgetSelect by done; simpl;
      by rewrite list_fmap_insert.
  - unfold activate. rewrite Ht. apply lookup_ge_None in Ht.
    by rewrite list_insert_ge by (by rewrite length_fmap).
Qed.

Lemma activated_deactivate this ed :
  handleCount ed <> 0 ->
  activated <$> tabs (deactivate this ed)
  = <[this := false]> (activated <$> tabs ed).
Proof.
  intros Hn. destruct (tabs ed !! this) as [t|] eqn:Ht.
  - rewrite (deactivate_unfold this ed t Ht Hn). cbv zeta.
    repeat case_match; rewrite ?fmap_widgetSelect by done; simpl;
      rewrite ?fmap_alter_unmark by done; by rewrite list_fmap_insert.
  - unfold deactivate. rewrite Ht. apply lookup_ge_None in Ht.
    by rewrite list_insert_ge by (by rewrite length_fmap).
Qed.

(** A field written by neither transition nor by the widget is the same in
    every tab afterwards. *)
Lemma fmap_activate {B} (f : @Tab Elem -> B) this ed :
  (forall b t, f (withActivated b t) = f t) ->
  (forall b t, f (withHandleVisible b t) = f t) ->
  (forall b t, f (withHandleActive b t) = f t) ->
  (forall b t, f (withPanelVisible b t) = f t) ->
  f <$> tabs (activate this ed) = f <$> tabs ed.
Proof.
  intros Ha Hv Hm Hp. unfold activate.
  destruct (tabs ed !! this) as [t|] eqn:Ht; [| done].
  destruct (handleCount ed =? 0); [done |].
  assert (Hins : f <$> <[this := withActivated true (showTab t)]> (tabs ed)
                 = f <$> tabs ed).
  { rewrite list_fmap_insert. unfold showTab. rewrite Ha, Hv.
    apply list_insert_id. by rewrite list_lookup_fmap, Ht. }
  repeat case_match;
    rewrite ?fmap_widgetSelect by (intros; by rewrite Hp, Hm); by simpl.
Qed.

Lemma fmap_deactivate {B} (f : @Tab Elem -> B) this ed :
  (forall b t, f (withActivated b t) = f t) ->
  (forall b t, f (withHandleVisible b t) = f t) ->
  (forall b t, f (withHandleActive b t) = f t) ->
  (forall b t, f (withPanelVisible b t) = f t) ->
  f <$> tabs (deactivate this ed) = f <$> tabs ed.
Proof.
  intros Ha Hv Hm Hp. unfold deactivate.
  destruct (tabs ed !! this) as [t|] eqn:Ht; [| done].
  destruct (handleCount ed =? 0); [done |].
  assert (Hins : f <$> <[this := withActivated false (hideTab t)]> (tabs ed)
                 = f <$> tabs ed).
  { rewrite list_fmap_insert. unfold hideTab. rewrite Ha, Hv.
    apply list_insert_id. by rewrite list_lookup_fmap, Ht. }
  repeat case_match;
    rewrite ?fmap_widgetSelect by (intros; by rewrite Hp, Hm); simpl;
    rewrite ?fmap_alter_unmark by done; done.
Qed.

(** X4: with no handle rendered both transitions return at their guard: the
    editable, this tab's flag included, is left as it was. *)
Theorem transitions_without_handles_do_nothing this ed :
  handleCount ed = 0 ->
  activate this ed = ed /\ deactivate this ed = ed.
Proof.
  intros Hz. unfold activate, deactivate. rewrite Hz. simpl.
  by destruct (tabs ed !! this).
Qed.

(** X5: neither transition ever changes a tab's predicate or index, the number
    of tabs or of handles, or the activation flag of a tab other than the
    one it is called on. *)
Theorem transitions_touch_own_flag_only this ed :
  (shouldActivate <$> tabs (activate this ed) = shouldActivate <$> tabs ed /\
   shouldActivate <$> tabs (deactivate this ed) = shouldActivate <$> tabs ed) /\
  (index <$> tabs (activate this ed) = index <$> tabs ed /\
   index <$> tabs (deactivate this ed) = index <$> tabs ed) /\
  (handleCount (activate this ed) = handleCount ed /\
   handleCount (deactivate this ed) = handleCount ed) /\
  (forall j, j <> this ->
     (activated <$> tabs (activate this ed)) !! j
       = (activated <$> tabs ed) !! j /\
     (activated <$> tabs (deactivate this ed)) !! j
       = (activated <$> tabs ed) !! j).
Proof.
  split; [split; [by apply fmap_activate | by apply fmap_deactivate] |].
  split; [split; [by apply fmap_activate | by apply fmap_deactivate] |].
  split; [split; [apply handleCount_activate | apply handleCount_deactivate] |].
  intros j Hj. destruct (decide (handleCount ed = 0)) as [Hz|Hn].
  - unfold activate, deactivate. rewrite Hz. simpl.
    by destruct (tabs ed !! this).
  - rewrite activated_activate, activated_deactivate by done.
    by rewrite !list_lookup_insert_ne.
Qed.

(** X6: deactivating a tab that is not the selected one leaves the selection to
    the widget: the selected index, the calls to [select], the marks on the
    handles and the panels are as before. *)
Theorem deactivate_unselected_keeps_selection this ed t :
  tabs ed !! this = Some t -> widgetSelected ed <> Some (index t) ->
  widgetSelected (deactivate this ed) = widgetSelected ed /\
  selectCalls (deactivate this ed) = selectCalls ed /\
  handleActive <$> tabs (deactivate this ed) = handleActive <$> tabs ed /\
  panelVisible <$> tabs (deactivate this ed) = panelVisible <$> tabs ed.
Proof.
  intros Ht Hsel. destruct (decide (handleCount ed = 0)) as [Hz|Hn].
  { unfold deactivate. by rewrite Ht, Hz. }
  rewrite (deactivate_unfold this ed t Ht Hn). cbv zeta.
  rewrite bool_decide_eq_false_2 by congruence. simpl.
  repeat split; rewrite list_fmap_insert; simpl;
    apply list_insert_id; by rewrite list_lookup_fmap, Ht.
Qed.

End TransitionFrames.

(** ** Properties of rendering, showing and hiding *)

Section LifecycleProperties.

Context {Elem : Type}.
Context {widget : TabWidget}.
Variable jq_is : Elem -> string -> bool.

Implicit Types (ed : @Editable Elem) (tb : @Toolbar Elem)
  (defs : list (@TabOptions Elem)).

(** The tab built for the definition at position [i] when [base] tabs
    exist already. *)
Local Abbreviation builtTab base :=
  (fun (i : nat) (o : @TabOptions Elem) =>
     {| index := base + i; activated := false;
        shouldActivate := coerceActivateOnToPredicate jq_is (activateOn o);
        handleVisible := false; handleActive := false;
        panelVisible := false |}).

(** What the creation of the widget over [n] handles makes of the tab at
    position [j]. *)
Local Abbreviation asCreated n :=
  (fun (j : nat) (t : @Tab Elem) =>
     withPanelVisible (bool_decide (createSelects n = Some j))
       (withHandleActive (bool_decide (createSelects n = Some j)) t)).

Lemma pushTabs_spec defs ed :
  tabs (fold_left (pushTab jq_is) defs ed)
    = tabs ed ++ imap (builtTab (length (tabs ed))) defs /\
  handleCount (fold_left (pushTab jq_is) defs ed)
    = handleCount ed + length defs * handleLists ed /\
  handleLists (fold_left (pushTab jq_is) defs ed) = handleLists ed /\
  selected (fold_left (pushTab jq_is) defs ed) = selected ed /\
  selectCalls (fold_left (pushTab jq_is) defs ed) = selectCalls ed /\
  toolbarRendered (fold_left (pushTab jq_is) defs ed) = toolbarRendered ed /\
  settingsTabs (fold_left (pushTab jq_is) defs ed) = settingsTabs ed.
Proof.
  revert ed. induction defs as [|o defs IH]; intros ed.
  - simpl. rewrite app_nil_r. repeat split; lia.
  - cbn [fold_left]. destruct (IH (pushTab jq_is ed o))
      as (Htabs & Hcount & Hlists & Hsel & Hcalls & Hren & Hset).
    rewrite Htabs, Hcount, Hlists, Hsel, Hcalls, Hren, Hset. simpl.
    rewrite <- app_assoc, length_app. simpl.
    repeat split; [| lia]. f_equal. unfold newTab.
    rewrite Nat.add_0_r. f_equal.
    apply imap_ext. intros i x _. simpl. f_equal. lia.
Qed.

(** X9: on an editable that has its toolbar, [initializeTabs] adds one
    handle list and appends one tab per definition, in declaration order:
    the indices continue densely from the tabs that exist, each new tab is
    not activated with handle and panel hidden and has the coercion of its
    rule as predicate, and every handle list of the container, the new one
    included, gets one handle per definition.  When the handle list is the
    container's first, the widget is created over the tabs: selection,
    marks and panels are what its creation chooses; otherwise the selection
    and the existing tabs are untouched.  On an editable without toolbar
    the call does nothing for an empty definition list and fails for any
    other. *)
Theorem initializeTabs_appends_hidden_tabs defs ed :
  if toolbarRendered ed then
    exists ed',
      initializeTabs jq_is defs ed = Some ed' /\
      handleLists ed' = S (handleLists ed) /\
      handleCount ed' = handleCount ed + length defs * S (handleLists ed) /\
      selectCalls ed' = selectCalls ed /\
      if handleLists ed =? 0 then
        tabs ed'
          = imap (asCreated (length (tabs ed) + length defs))
              (tabs ed ++ imap (builtTab (length (tabs ed))) defs) /\
        selected ed' = createSelects (length (tabs ed) + length defs)
      else
        tabs ed' = tabs ed ++ imap (builtTab (length (tabs ed))) defs /\
        selected ed' = selected ed
  else
    initializeTabs jq_is defs ed
    = match defs with
      | [] => Some ed
      | _ :: _ => None
      end.
Proof.
  unfold initializeTabs. destruct (toolbarRendered ed); [| done].
  eexists. split; [done |].
  destruct (pushTabs_spec defs (addHandleList ed))
    as (Htabs & Hcount & Hlists & Hsel & Hcalls & _).
  destruct (handleLists ed =? 0); unfold widgetCreate; simpl in *;
    rewrite Htabs, Hcount, Hlists, Hcalls, ?Hsel, ?length_app, ?length_imap;
    repeat split.
Qed.

Lemma render_blank_spec defs :
  toolbarRendered (render jq_is (blankEditable defs)) = true /\
  tabs (render jq_is (blankEditable defs))
    = imap (asCreated (Nat.max 1 (length defs)))
        (imap (builtTab 0)
           (match defs with
            | [] => [ {| activateOn := RBoolean true |} ]
            | _ :: _ => defs
            end)) /\
  handleCount (render jq_is (blankEditable defs)) = Nat.max 1 (length defs) /\
  handleLists (render jq_is (blankEditable defs)) = 1 /\
  selected (render jq_is (blankEditable defs))
    = createSelects (Nat.max 1 (length defs)) /\
  selectCalls (render jq_is (blankEditable defs)) = [].
Proof.
  rewrite render_unfold.
  match goal with |- context [fold_left (pushTab jq_is) ?ds ?e] =>
    destruct (pushTabs_spec ds e)
      as (Htabs & Hcount & Hlists & Hsel & Hcalls & Hren & _)
  end.
  unfold widgetCreate. simpl in *.
  rewrite Htabs, Hcount, Hlists, Hcalls, Hren, length_imap.
  assert (Hlen : length (match defs with
                         | [] => [ {| activateOn := RBoolean true |} ]
                         | _ :: _ => defs
                         end) = Nat.max 1 (length defs))
    by (by destruct defs).
  rewrite Hlen. repeat split. lia.
Qed.

(** X10: the first rendering of an editable: with no tab configured there is
    exactly one tab and its predicate is constantly true; otherwise there is
    one tab per configured definition.  Every tab starts not activated with
    its handle hidden, at its own index, with one handle in the one handle
    list.  No call of [select] was made: the selected index, the marked
    handle and the visible panel are those that the creation of the widget
    chooses. *)
Theorem render_blank_editable defs :
  toolbarRendered (render jq_is (blankEditable defs)) = true /\
  length (tabs (render jq_is (blankEditable defs))) = Nat.max 1 (length defs) /\
  handleLists (render jq_is (blankEditable defs)) = 1 /\
  handleCount (render jq_is (blankEditable defs))
    = length (tabs (render jq_is (blankEditable defs))) /\
  shouldActivate <$> tabs (render jq_is (blankEditable defs))
    = match defs with
      | [] => [fun _ => true]
      | _ :: _ =>
          (fun o => coerceActivateOnToPredicate jq_is (activateOn o)) <$> defs
      end /\
  Forall (fun t => activated t = false /\ handleVisible t = false)
         (tabs (render jq_is (blankEditable defs))) /\
  index <$> tabs (render jq_is (blankEditable defs))
    = seq 0 (Nat.max 1 (length defs)) /\
  handleActive <$> tabs (render jq_is (blankEditable defs))
    = (fun j => bool_decide
                  (createSelects (Nat.max 1 (length defs)) = Some j))
      <$> seq 0 (Nat.max 1 (length defs)) /\
  panelVisible <$> tabs (render jq_is (blankEditable defs))
    = handleActive <$> tabs (render jq_is (blankEditable defs)) /\
  selected (render jq_is (blankEditable defs))
    = createSelects (Nat.max 1 (length defs)) /\
  selectCalls (render jq_is (blankEditable defs)) = [].
Proof.
  destruct (render_blank_spec defs)
    as (Hren & Htabs & Hcount & Hlists & Hsel & Hcalls).
  rewrite Hren, Hcount, Hlists, Htabs, Hsel, Hcalls, !length_imap.
  set (ds := match defs with
             | [] => [ {| activateOn := RBoolean true |} ]
             | _ :: _ => defs
             end).
  assert (Hlen : length ds = Nat.max 1 (length defs))
    by (unfold ds; by destruct defs).
  split; [done |]. split; [done |]. split; [done |]. split; [done |].
  split.
  { unfold ds. destruct defs as [|o defs]; [done |].
    apply list_eq. intros i.
    rewrite !list_lookup_fmap, !list_lookup_imap.
    by destruct ((o :: defs) !! i). }
  split.
  { apply Forall_lookup. intros i t Hi.
    rewrite !list_lookup_imap in Hi.
    destruct (ds !! i); [| done]. by injection Hi as <-. }
  split.
  { apply list_eq. intros i.
    rewrite list_lookup_fmap, !list_lookup_imap.
    destruct (ds !! i) as [o|] eqn:Ho; simpl.
    - apply lookup_lt_Some in Ho. rewrite Hlen in Ho.
      by rewrite lookup_seq_lt.
    - apply lookup_ge_None in Ho. rewrite Hlen in Ho.
      by rewrite lookup_seq_ge. }
  split.
  { apply list_eq. intros i.
    rewrite !list_lookup_fmap, !list_lookup_imap.
    destruct (ds !! i) as [o|] eqn:Ho; simpl.
    - apply lookup_lt_Some in Ho. rewrite Hlen in Ho.
      by rewrite lookup_seq_lt.
    - apply lookup_ge_None in Ho. rewrite Hlen in Ho.
      by rewrite lookup_seq_ge. }
  split; [| done].
  apply list_eq. intros i.
  rewrite !list_lookup_fmap, !list_lookup_imap.
  by destruct (ds !! i).
Qed.

Lemma toolbarRendered_render ed : toolbarRendered (render jq_is ed) = true.
Proof.
  rewrite render_unfold.
  match goal with |- context [fold_left (pushTab jq_is) ?ds ?e] =>
    destruct (pushTabs_spec ds e) as (_ & _ & _ & _ & _ & Hren & _)
  end.
  unfold widgetCreate. simpl. by rewrite Hren.
Qed.

(** X11: [show] renders an editable on its first display only: an editable that
    has its toolbar is left as it is, the editable shown has its toolbar
    afterwards, and showing the same editable again changes nothing. *)
Theorem show_renders_once id tb ed :
  editables tb !! id = Some ed ->
  show jq_is id (show jq_is id tb) = show jq_is id tb /\
  (toolbarRendered ed = true ->
   editables (show jq_is id tb) = editables tb) /\
  (exists ed1, editables (show jq_is id tb) !! id = Some ed1 /\
               toolbarRendered ed1 = true) /\
  active (show jq_is id tb) = ActiveEditable id.
Proof.
  intros Hed.
  assert (Hlt : id < length (editables tb)) by (by eapply lookup_lt_Some).
  assert (Hshown : exists ed1,
            editables (show jq_is id tb) !! id = Some ed1 /\
            toolbarRendered ed1 = true).
  { unfold show. rewrite Hed. simpl.
    rewrite list_lookup_insert_eq by done. eexists. split; [done |].
    destruct (toolbarRendered ed) eqn:Hr; [done |].
    apply toolbarRendered_render. }
  split; [| split; [| split]].
  - destruct Hshown as (ed1 & Hed1 & Hr1).
    unfold show at 1. rewrite Hed1, Hr1.
    rewrite (list_insert_id _ _ _ Hed1).
    unfold show. rewrite Hed. done.
  - intros Hr. unfold show. rewrite Hed, Hr. simpl.
    by apply list_insert_id.
  - exact Hshown.
  - unfold show. by rewrite Hed.
Qed.

(** X12: while [Aloha.eventHandled] is set, the deferred hide of a deactivated
    editable changes nothing: after the grace delay the toolbar is still
    displayed with the same controls.  The active slot keeps the [false]
    written by the deactivation handler, so selection changes are ignored
    from then on. *)
Theorem hide_suppressed_while_event_handled id tb :
  timers tb = [] -> eventHandled tb = true ->
  let later :=
    advanceTo (clock tb + 10)
      (handleEvent jq_is (EditableDeactivated id) tb) in
  elementVisible later = elementVisible tb /\
  attached later = attached tb /\
  editables later = editables tb /\
  active later = ActiveFalse /\
  hideCalls later = hideCalls tb ++ [id] /\
  timers later = [] /\
  forall range, toolbarAfter (checkActiveTabs range later) = later.
Proof.
  intros Htimers Hheld later.
  assert (Hlater : later =
    {| active := ActiveFalse; editables := editables tb;
       elementVisible := elementVisible tb; attached := attached tb;
       eventHandled := true; clock := clock tb + 10; timers := [];
       hideCalls := hideCalls tb ++ [id] |}).
  { unfold later, advanceTo. rewrite runDue_spec. simpl.
    rewrite Htimers. simpl. rewrite !filter_cons, !filter_nil. simpl.
    unfold graceDelay. repeat case_decide; try lia. simpl.
    unfold fireTimer, hide. simpl. rewrite Hheld.
    unfold withClock, withTimers. simpl. f_equal. lia. }
  rewrite Hlater. simpl. repeat split.
Qed.

End LifecycleProperties.

(** ** What a dispatch does to the activation flags *)

Section ReconcileProperties.

Context {Elem : Type}.
Context {widget : TabWidget}.
Variable jq_is : Elem -> string -> bool.

Implicit Types (ed : @Editable Elem) (d : @Dispatch Elem)
  (tb : @Toolbar Elem) (range : option (@Range Elem))
  (es : list (@Node Elem)).

(** The answer of a predicate on the effective elements [es]. *)
Local Abbreviation answer es :=
  (fun p : @Node Elem -> bool => result (shouldActivateForElements p es)).

Lemma fmap_lookup_eq {A B C} (f : A -> C) (g : B -> C)
    (l1 : list A) (l2 : list B) i a b :
  f <$> l1 = g <$> l2 -> l1 !! i = Some a -> l2 !! i = Some b -> f a = g b.
Proof.
  intros H Ha Hb.
  assert (Hi : (f <$> l1) !! i = (g <$> l2) !! i) by (by rewrite H).
  rewrite !list_lookup_fmap, Ha, Hb in Hi. by injection Hi.
Qed.

Lemma checkTab_flags es d i n t :
  handleCount (editableAfter d) = length (tabs (editableAfter d)) ->
  tabs (editableAfter d) !! i = Some t ->
  effectiveAfter d = es ++ replicate n Null ->
  activated <$> tabs (editableAfter (checkTab d i))
    = <[i := answer es (shouldActivate t)]>
        (activated <$> tabs (editableAfter d)) /\
  shouldActivate <$> tabs (editableAfter (checkTab d i))
    = shouldActivate <$> tabs (editableAfter d) /\
  index <$> tabs (editableAfter (checkTab d i))
    = index <$> tabs (editableAfter d) /\
  handleCount (editableAfter (checkTab d i)) = handleCount (editableAfter d) /\
  effectiveAfter (checkTab d i) = es ++ replicate (S n) Null.
Proof.
  intros Hcount Ht Heff.
  assert (Hn : handleCount (editableAfter d) <> 0).
  { apply lookup_lt_Some in Ht. lia. }
  assert (Hid : forall b,
    activated t = b ->
    activated <$> tabs (editableAfter d)
    = <[i := b]> (activated <$> tabs (editableAfter d))).
  { intros b Hb. symmetry. apply list_insert_id.
    by rewrite list_lookup_fmap, Ht, <- Hb. }
  unfold checkTab. rewrite Ht. cbn [editableAfter effectiveAfter].
  rewrite shouldActivateForElements_elementsAfter, Heff.
  rewrite result_trailing_nulls.
  split; [| split; [| split; [| split]]].
  - destruct (result (shouldActivateForElements (shouldActivate t) es));
      destruct (activated t) eqn:Ha; auto using activated_activate,
        activated_deactivate.
  - repeat case_match; auto using fmap_activate, fmap_deactivate.
  - repeat case_match; auto using fmap_activate, fmap_deactivate.
  - repeat case_match; auto using handleCount_activate, handleCount_deactivate.
  - rewrite <- app_assoc. f_equal.
    change [@Null Elem] with (replicate 1 (@Null Elem)).
    rewrite <- replicate_add. f_equal. lia.
Qed.

Lemma eachTab_flags es m :
  forall k d n,
    k + m <= length (tabs (editableAfter d)) ->
    handleCount (editableAfter d) = length (tabs (editableAfter d)) ->
    effectiveAfter d = es ++ replicate n Null ->
    handleCount (editableAfter (fold_left checkTab (seq k m) d))
      = handleCount (editableAfter d) /\
    shouldActivate <$> tabs (editableAfter (fold_left checkTab (seq k m) d))
      = shouldActivate <$> tabs (editableAfter d) /\
    index <$> tabs (editableAfter (fold_left checkTab (seq k m) d))
      = index <$> tabs (editableAfter d) /\
    forall j,
      (activated <$> tabs (editableAfter (fold_left checkTab (seq k m) d))) !! j
      = if decide (k <= j < k + m)
        then answer es <$> (shouldActivate <$> tabs (editableAfter d)) !! j
        else (activated <$> tabs (editableAfter d)) !! j.
Proof.
  induction m as [|m IH]; intros k d n Hk Hcount Heff.
  - simpl. repeat split. intros j. by rewrite decide_False by lia.
  - cbn [seq fold_left].
    destruct (lookup_lt_is_Some_2 (tabs (editableAfter d)) k ltac:(lia))
      as [t Ht].
    destruct (checkTab_flags es d k n t Hcount Ht Heff)
      as (Hact & Hpred & Hidx & Hcnt & Heff').
    assert (Hlen : length (tabs (editableAfter (checkTab d k)))
                   = length (tabs (editableAfter d))).
    { by rewrite <- (length_fmap index), Hidx, length_fmap. }
    destruct (IH (S k) (checkTab d k) (S n)) as (IHcnt & IHpred & IHidx & IHact);
      [lia | by rewrite Hcnt, Hlen | done |].
    rewrite IHcnt, IHpred, IHidx, Hcnt, Hpred, Hidx.
    repeat split. intros j. rewrite IHact, Hpred, Hact.
    destruct (decide (S k <= j < S k + m)) as [Hin|Hout].
    + by rewrite decide_True by lia.
    + destruct (decide (k = j)) as [<-|Hne].
      * rewrite decide_True by lia.
        rewrite list_lookup_insert_eq by (rewrite length_fmap; lia).
        by rewrite list_lookup_fmap, Ht.
      * rewrite decide_False by lia. by rewrite list_lookup_insert_ne.
Qed.

Lemma reconcile_flags ed range :
  handleCount ed = length (tabs ed) ->
  activated <$> tabs (reconcile ed range)
    = answer (effectiveOf range) <$> (shouldActivate <$> tabs ed) /\
  shouldActivate <$> tabs (reconcile ed range) = shouldActivate <$> tabs ed /\
  index <$> tabs (reconcile ed range) = index <$> tabs ed /\
  handleCount (reconcile ed range) = handleCount ed.
Proof.
  intros Hcount. unfold reconcile, eachTab.
  match goal with |- context [fold_left checkTab _ ?d0] =>
    destruct (eachTab_flags (effectiveOf range) (length (tabs ed)) 0 d0 0)
      as (Hcnt & Hpred & Hidx & Hact)
  end; simpl; [lia | done | by rewrite app_nil_r |].
  simpl in *. repeat split; auto.
  apply list_eq. intros j. rewrite Hact.
  case_decide as Hin;
    [by rewrite (list_lookup_fmap (answer (effectiveOf range))) |].
  rewrite !list_lookup_fmap.
  by rewrite (proj2 (lookup_ge_None (tabs ed) j)) by lia.
Qed.

(** When every flag already agrees with its predicate's answer, the
    dispatch calls neither transition. *)
Lemma eachTab_stable es ed :
  (forall i t, tabs ed !! i = Some t ->
               activated t = answer es (shouldActivate t)) ->
  forall m k n ps,
    editableAfter
      (fold_left checkTab (seq k m)
         {| editableAfter := ed; effectiveAfter := es ++ replicate n Null;
            passed := ps |}) = ed.
Proof.
  intros Hagree. induction m as [|m IH]; intros k n ps; [done |].
  cbn [seq fold_left]. unfold checkTab at 2. cbn [editableAfter effectiveAfter passed].
  destruct (tabs ed !! k) as [t|] eqn:Ht; [| apply IH].
  rewrite shouldActivateForElements_elementsAfter, result_trailing_nulls.
  rewrite <- (Hagree k t Ht).
  replace ((es ++ replicate n Null) ++ [Null]) with (es ++ replicate (S n) Null).
  - destruct (activated t); apply IH.
  - rewrite <- app_assoc. f_equal.
    change [@Null Elem] with (replicate 1 (@Null Elem)).
    rewrite <- replicate_add. f_equal. lia.
Qed.

Lemma checkActiveTabs_active range tb id ed :
  active tb = ActiveEditable id -> editables tb !! id = Some ed ->
  toolbarAfter (checkActiveTabs range tb)
  = withEditables (<[id := reconcile ed range]> (editables tb)) tb.
Proof. intros Ha He. unfold checkActiveTabs. by rewrite Ha, He. Qed.

(** X13: after a dispatch over the active editable every tab's [activated] flag
    is the answer of its own predicate on the effective elements of the
    range; the tabs, their predicates and their indices are the same. *)
Theorem checkActiveTabs_sets_flags_to_answers range tb id ed :
  active tb = ActiveEditable id -> editables tb !! id = Some ed ->
  handleCount ed = length (tabs ed) ->
  exists ed',
    editables (toolbarAfter (checkActiveTabs range tb)) !! id = Some ed' /\
    length (tabs ed') = length (tabs ed) /\
    forall i t, tabs ed !! i = Some t ->
      exists t', tabs ed' !! i = Some t' /\
        activated t'
          = result (shouldActivateForElements (shouldActivate t)
                      (effectiveOf range)) /\
        shouldActivate t' = shouldActivate t /\ index t' = index t.
Proof.
  intros Ha He Hcount.
  rewrite (checkActiveTabs_active range tb id ed Ha He).
  destruct (reconcile_flags ed range Hcount) as (Hact & Hpred & Hidx & _).
  exists (reconcile ed range). simpl.
  split; [apply list_lookup_insert_eq; by eapply lookup_lt_Some |].
  assert (Hlen : length (tabs (reconcile ed range)) = length (tabs ed)).
  { by rewrite <- (length_fmap index), Hidx, length_fmap. }
  split; [done |]. intros i t Ht.
  destruct (lookup_lt_is_Some_2 (tabs (reconcile ed range)) i) as [t' Ht'].
  { rewrite Hlen. by eapply lookup_lt_Some. }
  exists t'. split; [done |].
  assert (Hp : (shouldActivate <$> tabs ed) !! i = Some (shouldActivate t))
    by (by rewrite list_lookup_fmap, Ht).
  split; [apply (fmap_lookup_eq _ _ _ _ i _ _ Hact Ht' Hp) |].
  split; [apply (fmap_lookup_eq _ _ _ _ i _ _ Hpred Ht' Ht) |].
  apply (fmap_lookup_eq _ _ _ _ i _ _ Hidx Ht' Ht).
Qed.

(** X14: a second dispatch with the same range changes nothing. *)
Theorem checkActiveTabs_same_range_twice range tb id ed :
  active tb = ActiveEditable id -> editables tb !! id = Some ed ->
  handleCount ed = length (tabs ed) ->
  toolbarAfter
    (checkActiveTabs range (toolbarAfter (checkActiveTabs range tb)))
  = toolbarAfter (checkActiveTabs range tb).
Proof.
  intros Ha He Hcount.
  assert (Hlt : id < length (editables tb)) by (by eapply lookup_lt_Some).
  rewrite (checkActiveTabs_active range tb id ed Ha He).
  rewrite (checkActiveTabs_active range _ id (reconcile ed range));
    [| done | simpl; by apply list_lookup_insert_eq].
  destruct (reconcile_flags ed range Hcount) as (Hact & Hpred & _).
  assert (Hstable : reconcile (reconcile ed range) range = reconcile ed range).
  { assert (Hagree : forall i t, tabs (reconcile ed range) !! i = Some t ->
      activated t = answer (effectiveOf range) (shouldActivate t)).
    { intros i t Ht.
      destruct (lookup_lt_is_Some_2 (tabs ed) i) as [u Hu].
      { apply lookup_lt_Some in Ht.
        by rewrite <- (length_fmap shouldActivate), <- Hpred, length_fmap. }
      assert (Hp : (shouldActivate <$> tabs ed) !! i = Some (shouldActivate u))
        by (by rewrite list_lookup_fmap, Hu).
      rewrite (fmap_lookup_eq _ _ _ _ i _ _ Hact Ht Hp).
      by rewrite (fmap_lookup_eq _ _ _ _ i _ _ Hpred Ht Hu). }
    pose proof (eachTab_stable (effectiveOf range) (reconcile ed range) Hagree
                  (length (tabs (reconcile ed range))) 0 0 []) as Hs.
    simpl in Hs. rewrite app_nil_r in Hs. exact Hs. }
  rewrite Hstable. unfold withEditables. simpl.
  by rewrite list_insert_insert_eq.
Qed.

(** X15: a dispatch touches nothing but the tabs of the active editable: the
    other editables and every other part of the toolbar state are as
    before. *)
Theorem checkActiveTabs_touches_active_editable_only range tb :
  active (toolbarAfter (checkActiveTabs range tb)) = active tb /\
  elementVisible (toolbarAfter (checkActiveTabs range tb)) = elementVisible tb /\
  attached (toolbarAfter (checkActiveTabs range tb)) = attached tb /\
  eventHandled (toolbarAfter (checkActiveTabs range tb)) = eventHandled tb /\
  timers (toolbarAfter (checkActiveTabs range tb)) = timers tb /\
  hideCalls (toolbarAfter (checkActiveTabs range tb)) = hideCalls tb /\
  length (editables (toolbarAfter (checkActiveTabs range tb)))
    = length (editables tb) /\
  forall j, active tb <> ActiveEditable j ->
    editables (toolbarAfter (checkActiveTabs range tb)) !! j
    = editables tb !! j.
Proof.
  unfold checkActiveTabs.
  destruct (active tb) as [| |id] eqn:Ha; simpl; try by repeat split.
  destruct (editables tb !! id) as [ed|] eqn:He; simpl;
    [| by repeat split].
  rewrite length_insert. repeat split; try done.
  intros j Hj. apply list_lookup_insert_ne. congruence.
Qed.

(** X16: an editable with no tab configured gets the single unnamed tab, and
    this tab is shown and selected by the first selection change after the
    editable is activated, whatever the selection is. *)
Theorem unconfigured_editable_shows_unnamed_tab range tb id :
  editables tb !! id = Some (blankEditable []) ->
  exists ed t,
    editables
      (handleEvent jq_is (SelectionChanged range)
         (handleEvent jq_is (EditableActivated id) tb)) !! id = Some ed /\
    tabs ed = [t] /\ activated t = true /\ handleVisible t = true /\
    handleActive t = true /\ panelVisible t = true /\
    widgetSelected ed = Some 0.
Proof.
  intros He.
  assert (Hlt : id < length (editables tb)) by (by eapply lookup_lt_Some).
  cbn [handleEvent]. unfold show at 1. rewrite He. cbn [blankEditable toolbarRendered].
  set (ed0 := render jq_is (blankEditable [])).
  match goal with |- context [checkActiveTabs range ?tb1] =>
    rewrite (checkActiveTabs_active range tb1 id ed0)
  end; [| done | simpl; by apply list_lookup_insert_eq].
  simpl. rewrite list_insert_insert_eq.
  rewrite list_lookup_insert_eq by done.
  unfold reconcile, eachTab. simpl. unfold checkTab. simpl.
  rewrite result_constant_true by done.
  unfold activate, activeHandles, widgetSelected. simpl.
  destruct (createSelects 1) as [[|k]|]; simpl; eexists _, _; repeat split.
Qed.

End ReconcileProperties.

(** ** Repeating a deactivation *)

Section DeactivateTwice.

Context {Elem : Type}.
Context {widget : TabWidget}.

Implicit Types (ed : @Editable Elem) (t : @Tab Elem).

Lemma withTabs_same ed : withTabs (tabs ed) ed = ed.
Proof. by destruct ed. Qed.

Lemma alter_unmark_same (ts : list (@Tab Elem)) i t :
  ts !! i = Some t -> handleActive t = false ->
  alter (withHandleActive false) i ts = ts.
Proof.
  intros Hi Hm. apply list_eq. intros j.
  destruct (decide (i = j)) as [<-|Hne].
  - rewrite list_lookup_alter_eq, Hi. simpl. f_equal.
    destruct t. simpl in *. by subst.
  - by rewrite list_lookup_alter_ne.
Qed.

(** What one [deactivate] leaves: this tab is hidden and not activated, and
    if it is still the widget's selected index then no tab is activated and
    its handle is not marked. *)
Lemma deactivate_leaves this ed t :
  wellFormed ed -> tabs ed !! this = Some t ->
  exists t1,
    tabs (deactivate this ed) !! this = Some t1 /\
    activated t1 = false /\ handleVisible t1 = false /\ index t1 = this /\
    (widgetSelected (deactivate this ed) = Some this ->
     handleActive t1 = false /\
     forall j v, tabs (deactivate this ed) !! j = Some v ->
                 activated v = false).
Proof.
  intros Hwf Ht.
  assert (Hlt : this < length (tabs ed)) by (by eapply lookup_lt_Some).
  assert (Hn : handleCount ed <> 0) by (rewrite (wf_handles ed Hwf); lia).
  pose proof (wf_index ed Hwf this t Ht) as Hidx.
  rewrite (deactivate_unfold this ed t Ht Hn). cbv zeta.
  set (hidden := withTabs _ ed).
  assert (Hthis : tabs hidden !! this = Some (withActivated false (hideTab t))).
  { unfold hidden. simpl. by apply list_lookup_insert_eq. }
  case_bool_decide as Hsel.
  - destruct (firstActivatedFrom 0 (tabs hidden)) as [i|] eqn:Hfirst.
    + apply firstActivatedFrom_Some in Hfirst as (w & _ & Hw & Hact & _).
      rewrite Nat.sub_0_r in Hw.
      assert (Hne : i <> this).
      { intros ->. rewrite Hthis in Hw. injection Hw as <-. discriminate. }
      eexists. rewrite lookup_widgetSelect, Hthis. simpl.
      do 4 (split; [done |]). intros Hs. congruence.
    + rewrite firstActivatedFrom_None in Hfirst.
      exists (withHandleActive false (withActivated false (hideTab t))).
      split.
      { change (alter (withHandleActive false) this (tabs hidden) !! this
                = Some (withHandleActive false (withActivated false (hideTab t)))).
        by rewrite list_lookup_alter_eq, Hthis. }
      do 3 (split; [done |]). intros _. split; [done |].
      intros j v Hv.
      change (alter (withHandleActive false) this (tabs hidden) !! j = Some v)
        in Hv.
      apply lookup_alter_cases in Hv as [[-> (w & Hw & ->)]|[_ Hv]];
        simpl; eauto.
  - eexists. split; [exact Hthis |]. simpl. do 3 (split; [done |]).
    intros Hs. exfalso. apply Hsel. unfold widgetSelected in *.
    simpl in *. congruence.
Qed.

(** X7: on a well-formed editable a second [deactivate] of the same tab changes
    nothing: the tab stays hidden, and the selection chosen by the first
    call, or its absence, stays. *)
Theorem deactivate_twice this ed :
  wellFormed ed ->
  deactivate this (deactivate this ed) = deactivate this ed.
Proof.
  intros Hwf. destruct (tabs ed !! this) as [t|] eqn:Ht;
    [| unfold deactivate; by rewrite !Ht].
  destruct (deactivate_leaves this ed t Hwf Ht)
    as (t1 & Ht1 & Hact & Hvis & Hidx & Hsel).
  assert (Hn : handleCount (deactivate this ed) <> 0).
  { rewrite handleCount_deactivate, (wf_handles ed Hwf).
    apply lookup_lt_Some in Ht. lia. }
  rewrite (deactivate_unfold this (deactivate this ed) t1 Ht1 Hn). cbv zeta.
  set (ed1 := deactivate this ed) in *.
  assert (Hsame : withActivated false (hideTab t1) = t1).
  { destruct t1. simpl in *. by subst. }
  rewrite Hsame, (list_insert_id _ _ _ Ht1), withTabs_same.
  case_bool_decide as Hs; [| done].
  rewrite Hidx in Hs. symmetry in Hs. destruct (Hsel Hs) as [Hm Hnone].
  rewrite (proj2 (firstActivatedFrom_None 0 (tabs ed1)) Hnone).
  by rewrite (alter_unmark_same _ _ t1 Ht1 Hm), withTabs_same.
Qed.

End DeactivateTwice.

(** ** An invariant of every run of the toolbar *)

Section RunInvariant.

Context {Elem : Type}.
Context {widget : TabWidget}.
Variable jq_is : Elem -> string -> bool.

Implicit Types (ed : @Editable Elem) (d : @Dispatch Elem)
  (tb : @Toolbar Elem) (t u : @Tab Elem).

Lemma marked_at_most_one (ts : list (@Tab Elem)) s :
  (forall j t, ts !! j = Some t -> handleActive t = true -> j = s) ->
  length (filter (fun t => handleActive t = true) ts) <= 1.
Proof.
  revert s. induction ts as [|u ts IH]; intros s Hs; [simpl; lia |].
  rewrite filter_cons. destruct (decide (handleActive u = true)) as [Hu|Hu].
  - assert (s = 0) as -> by (symmetry; by apply (Hs 0 u)).
    assert (Hz : length (filter (fun t => handleActive t = true) ts) = 0).
    { apply marked_zero. intros j t Hj. apply not_true_is_false. intros Hm.
      by specialize (Hs (S j) t Hj Hm). }
    simpl. lia.
  - apply (IH (pred s)). intros j t Hj Hm.
    specialize (Hs (S j) t Hj Hm). lia.
Qed.

Lemma wellFormed_one_mark ed : wellFormed ed -> activeHandles ed <= 1.
Proof.
  intros [_ _ Hmark _]. unfold activeHandles.
  destruct (selected ed) as [s|] eqn:Hsel.
  - apply (marked_at_most_one _ s). intros j t Hj Hm.
    specialize (Hmark j t Hj Hm). congruence.
  - apply (marked_at_most_one _ 0). intros j t Hj Hm.
    specialize (Hmark j t Hj Hm). congruence.
Qed.

Lemma handlesFollowFlags_activate this ed :
  handlesFollowFlags ed -> handlesFollowFlags (activate this ed).
Proof.
  intros Hvis. destruct (tabs ed !! this) as [t|] eqn:Ht;
    [| unfold activate; by rewrite Ht].
  destruct (decide (handleCount ed = 0)) as [Hz|Hn].
  { unfold activate. rewrite Ht, Hz. done. }
  rewrite (activate_unfold this ed t Ht Hn). cbv zeta.
  assert (Hshown : forall j v,
            <[this := withActivated true (showTab t)]> (tabs ed) !! j = Some v ->
            handleVisible v = activated v).
  { intros j v Hv.
    apply lookup_insert_cases in Hv as [[-> ->]|[Hne Hv]]; [done |].
    by apply (Hvis j v). }
  case_bool_decide.
  - intros j v Hv. rewrite lookup_widgetSelect in Hv. simpl in Hv.
    destruct (<[this := _]> (tabs ed) !! j) as [w|] eqn:Hw; [| done].
    injection Hv as <-. simpl. by apply (Hshown j).
  - intros j v Hv. by apply (Hshown j).
Qed.

Lemma handlesFollowFlags_deactivate this ed :
  handlesFollowFlags ed -> handlesFollowFlags (deactivate this ed).
Proof.
  intros Hvis. destruct (tabs ed !! this) as [t|] eqn:Ht;
    [| unfold deactivate; by rewrite Ht].
  destruct (decide (handleCount ed = 0)) as [Hz|Hn].
  { unfold deactivate. rewrite Ht, Hz. done. }
  rewrite (deactivate_unfold this ed t Ht Hn). cbv zeta.
  set (hidden := withTabs _ ed).
  assert (Hhid : forall j w, tabs hidden !! j = Some w ->
                             handleVisible w = activated w).
  { intros j w Hw. unfold hidden in Hw. simpl in Hw.
    apply lookup_insert_cases in Hw as [[-> ->]|[Hne Hw]]; [done |].
    by apply (Hvis j w). }
  case_bool_decide as Hsel; [| exact Hhid].
  destruct (firstActivatedFrom 0 (tabs hidden)) as [k|].
  - intros j v Hv. rewrite lookup_widgetSelect in Hv.
    destruct (tabs hidden !! j) as [x|] eqn:Hx; [| done].
    injection Hv as <-. simpl. by apply (Hhid j).
  - intros j v Hv.
    change (alter (withHandleActive false) this (tabs hidden) !! j = Some v)
      in Hv.
    apply lookup_alter_cases in Hv as [[-> (w & Hw & ->)]|[Hne Hv]].
    + simpl. by apply (Hhid this).
    + by apply (Hhid j).
Qed.

Lemma toolbarRendered_activate this ed :
  toolbarRendered (activate this ed) = toolbarRendered ed.
Proof.
  unfold activate. destruct (tabs ed !! this); [| done].
  destruct (handleCount ed =? 0); [done |]. by repeat case_match.
Qed.

Lemma toolbarRendered_deactivate this ed :
  toolbarRendered (deactivate this ed) = toolbarRendered ed.
Proof.
  unfold deactivate. destruct (tabs ed !! this); [| done].
  destruct (handleCount ed =? 0); [done |]. by repeat case_match.
Qed.

(** What both transitions keep, a dispatch keeps. *)
Lemma eachTab_preserves (P : @Editable Elem -> Prop) :
  (forall i ed, P ed -> P (activate i ed)) ->
  (forall i ed, P ed -> P (deactivate i ed)) ->
  forall ed es, P ed -> P (editableAfter (eachTab ed es)).
Proof.
  intros Hact Hdeact ed es HP. unfold eachTab.
  assert (Hgen : forall l d, P (editableAfter d) ->
            P (editableAfter (fold_left checkTab l d))).
  { induction l as [|i l IH]; intros d Hd; [done |].
    simpl. apply IH. unfold checkTab.
    destruct (tabs (editableAfter d) !! i); [| done]. simpl.
    repeat case_match; auto. }
  by apply Hgen.
Qed.

(** The state of an editable in a run: not yet rendered, or rendered with
    its handles, marks and flags in agreement. *)
Local Abbreviation sound ed :=
  (ed = blankEditable (settingsTabs ed) \/
   (toolbarRendered ed = true /\ wellFormed ed /\ handlesFollowFlags ed)).

Lemma sound_render ed :
  ed = blankEditable (settingsTabs ed) -> sound (render jq_is ed).
Proof.
  intros He. right.
  split; [apply toolbarRendered_render |].
  rewrite He.
  split; [apply wellFormed_render |].
  destruct (render_blank_spec jq_is (settingsTabs ed)) as (_ & Htabs & _).
  intros j t Hj. rewrite Htabs, !list_lookup_imap in Hj.
  destruct (_ !! j); [| done]. by injection Hj as <-.
Qed.

Lemma sound_reconcile ed range : sound ed -> sound (reconcile ed range).
Proof.
  intros [Hblank|Hrendered].
  - left. rewrite Hblank. reflexivity.
  - right. unfold reconcile.
    apply (eachTab_preserves
             (fun e => toolbarRendered e = true /\ wellFormed e /\
                       handlesFollowFlags e)); [| | done].
    + intros i e (Hr & Hwf & Hvis).
      split; [by rewrite toolbarRendered_activate |].
      split; [by apply wellFormed_activate |
              by apply handlesFollowFlags_activate].
    + intros i e (Hr & Hwf & Hvis).
      split; [by rewrite toolbarRendered_deactivate |].
      split; [by apply wellFormed_deactivate |
              by apply handlesFollowFlags_deactivate].
Qed.

Lemma sound_handleEvent ev tb :
  Forall (fun ed => sound ed) (editables tb) ->
  Forall (fun ed => sound ed) (editables (handleEvent jq_is ev tb)).
Proof.
  intros Hall. destruct ev as [range|id|id| |]; simpl; try done.
  - unfold checkActiveTabs.
    destruct (active tb) as [| |id]; simpl; try done.
    destruct (editables tb !! id) as [ed|] eqn:He; simpl; [| done].
    apply Forall_insert; [done |].
    apply sound_reconcile. by apply (proj1 (Forall_lookup _ _) Hall id).
  - unfold show. destruct (editables tb !! id) as [ed|] eqn:He; [| done].
    simpl. apply Forall_insert; [done |].
    pose proof (proj1 (Forall_lookup _ _) Hall id ed He) as Hs.
    destruct (toolbarRendered ed) eqn:Hr; [done |].
    destruct Hs as [Hblank|(Hr' & _)]; [| congruence].
    by apply sound_render.
Qed.


End RunInvariant.

(** ** The properties at work on the example document *)

Module Witnesses.

Import Example.

Lemma rendered_wellFormed : wellFormed rendered.
Proof. apply wellFormed_render. Qed.

Lemma abc_wellFormed : wellFormed abc.
Proof. apply wellFormed_applyOps, wellFormed_render. Qed.

Lemma single_wellFormed : wellFormed single.
Proof. apply wellFormed_applyOps, wellFormed_render. Qed.

(** Activating the first tab of a freshly rendered editable, whose index is
    the widget's selected index, selects it. *)
Lemma activate_selects_when_unselected_or_own_witness :
  tabs rendered !! 0 = Some tabFirst /\ handleCount rendered <> 0 /\
  selectCalls (activate 0 rendered) = selectCalls rendered ++ [0] /\
  panelVisible <$> tabs rendered = [true; false; false].
Proof.
  assert (Ht : tabs rendered !! 0 = Some tabFirst) by reflexivity.
  assert (Hn : handleCount rendered <> 0) by (vm_compute; lia).
  destruct (activate_selects_when_unselected_or_own 0 rendered tabFirst Ht Hn)
    as (_ & Hsel & _ & _).
  assert (Hc : activeHandles rendered = 0 \/
               widgetSelected rendered = Some (index tabFirst))
    by (right; reflexivity).
  destruct (Hsel Hc) as [_ Hcalls].
  repeat split; auto.
Defined.

(** With [A(activated), B(activated), C(not activated)] and B selected,
    deactivating B selects A, not C. *)
Lemma deactivate_selects_first_activated_witness :
  tabs abc !! 1 = Some tabB /\ handleCount abc <> 0 /\
  widgetSelected abc = Some (index tabB) /\
  (exists j u, j <> 1 /\ tabs abc !! j = Some u /\ activated u = true) /\
  widgetSelected (deactivate 1 abc) = Some 0 /\
  widgetSelected (deactivate 1 abc) <> Some 2.
Proof.
  assert (Ht : tabs abc !! 1 = Some tabB) by reflexivity.
  assert (Hn : handleCount abc <> 0) by (vm_compute; lia).
  assert (Hs : widgetSelected abc = Some (index tabB)) by reflexivity.
  assert (Ho : exists j u, j <> 1 /\ tabs abc !! j = Some u /\ activated u = true).
  { exists 0, tabA. split; [lia | split; reflexivity]. }
  destruct (deactivate_selects_first_activated 1 abc tabB Ht Hn Hs Ho)
    as (i & u & Hi & Hact & Hbefore & _ & _ & Hsel & _).
  assert (Hi0 : i = 0).
  { destruct i as [|i]; [reflexivity |].
    specialize (Hbefore 0 tabA ltac:(lia) eq_refl). discriminate. }
  subst i. rewrite Hsel. repeat split; auto.
Defined.


(** Activating B again, already activated and selected, changes nothing of
    the selection. *)
Lemma activate_idempotent_witness :
  wellFormed abc /\ tabs abc !! 1 = Some tabB /\ activated tabB = true /\
  widgetSelected (activate 1 abc) = Some 1.
Proof.
  assert (Ht : tabs abc !! 1 = Some tabB) by reflexivity.
  destruct (activate_idempotent 1 abc tabB abc_wellFormed Ht eq_refl)
    as [_ Hsel].
  split; [apply abc_wellFormed |].
  split; [exact Ht |]. split; [reflexivity | exact Hsel].
Defined.

(** With the active slot set to [false], a selection change leaves the
    toolbar as it is. *)
Lemma checkActiveTabs_inactive_noop_witness :
  activeTruthy (active (toolbar ActiveFalse)) = false /\
  toolbarAfter (checkActiveTabs (Some range) (toolbar ActiveFalse))
  = toolbar ActiveFalse.
Proof.
  split; [reflexivity |].
  apply (checkActiveTabs_inactive_noop (Some range) (toolbar ActiveFalse)).
  reflexivity.
Defined.

(** Three tabs leave three nulls behind the two effective elements. *)
Lemma checkActiveTabs_shares_effective_witness :
  active (toolbar (ActiveEditable 0)) = ActiveEditable 0 /\
  editables (toolbar (ActiveEditable 0)) !! 0 = Some abc /\
  effectiveFinal (checkActiveTabs (Some range) (toolbar (ActiveEditable 0)))
  = [Element "p"%string; Element "ul"%string; Null; Null; Null].
Proof.
  split; [reflexivity |]. split; [reflexivity |].
  apply (checkActiveTabs_shares_effective (Some range)
           (toolbar (ActiveEditable 0)) 0 abc eq_refl eq_refl).
Defined.



(** With the Lists and Table tabs and the selection inside a table, the
    Table tab is activated, but the Lists tab, which the widget selected
    when it was created, stays hidden with its handle marked and its panel
    displayed. *)
Lemma hidden_first_tab_stays_selected :
  (fun ed => (activated <$> tabs ed, handleActive <$> tabs ed,
              panelVisible <$> tabs ed, widgetSelected ed))
  <$> editables
        (run tagIs [(0, EditableActivated 1);
                    (1, SelectionChanged (Some inTable))] untouched) !! 1
  = Some ([false; true], [true; false], [true; false], Some 0).
Proof. reflexivity. Qed.

(** The Lists tab on the selections of the specification's examples. *)
Example lists_tab_on_selections :
  let p := coerceActivateOnToPredicate tagIs (RString "ul") in
  result (shouldActivateForElements p [Element "p"; Element "ul"])%string = true /\
  result (shouldActivateForElements p [Element "p"; Element "span"])%string = false /\
  result (shouldActivateForElements p []) = false /\
  tested (shouldActivateForElements p [Element "ul"; Element "p"])%string
  = [Null; Element "p"; Element "ul"]%string.
Proof. repeat split. Qed.

(** A tab without a rendered handle is left alone by both transitions. *)
Lemma transitions_without_handles_do_nothing_witness :
  handleCount orphan = 0 /\
  activate 0 orphan = orphan /\ deactivate 0 orphan = orphan.
Proof.
  split; [reflexivity |].
  apply (transitions_without_handles_do_nothing 0 orphan). reflexivity.
Defined.

(** Deactivating A leaves the flag of B. *)
Lemma transitions_touch_own_flag_only_witness :
  1 <> 0 /\ (activated <$> tabs (deactivate 0 abc)) !! 1 = Some true.
Proof.
  assert (Hne : 1 <> 0) by lia. split; [exact Hne |].
  destruct (transitions_touch_own_flag_only 0 abc) as (_ & _ & _ & Hflags).
  destruct (Hflags 1 Hne) as [_ Hd]. rewrite Hd. reflexivity.
Defined.

(** Deactivating A, which is not selected, leaves B selected. *)
Lemma deactivate_unselected_keeps_selection_witness :
  tabs abc !! 0 = Some tabA /\ widgetSelected abc <> Some (index tabA) /\
  widgetSelected (deactivate 0 abc) = Some 1.
Proof.
  assert (Ht : tabs abc !! 0 = Some tabA) by reflexivity.
  assert (Hs : widgetSelected abc <> Some (index tabA)) by discriminate.
  destruct (deactivate_unselected_keeps_selection 0 abc tabA Ht Hs)
    as (Hsel & _).
  split; [exact Ht |]. split; [exact Hs |]. rewrite Hsel. reflexivity.
Defined.

(** Showing the rendered editable again changes nothing. *)
Lemma show_renders_once_witness :
  editables (toolbar ActiveNull) !! 0 = Some abc /\
  show tagIs 0 (show tagIs 0 (toolbar ActiveNull))
  = show tagIs 0 (toolbar ActiveNull).
Proof.
  split; [reflexivity |].
  apply (show_renders_once tagIs 0 (toolbar ActiveNull) abc eq_refl).
Defined.

(** With the mouse held, the toolbar is still displayed after the delay. *)
Lemma hide_suppressed_while_event_handled_witness :
  timers toolbarHeld = [] /\ eventHandled toolbarHeld = true /\
  elementVisible
    (advanceTo (clock toolbarHeld + 10)
       (handleEvent tagIs (EditableDeactivated 0) toolbarHeld)) = true.
Proof.
  split; [reflexivity |]. split; [reflexivity |].
  apply (hide_suppressed_while_event_handled tagIs 0 toolbarHeld
           eq_refl eq_refl).
Defined.

(** On the selection [p, ul] the three tabs of [abc] get their answers. *)
Lemma checkActiveTabs_sets_flags_to_answers_witness :
  active (toolbar (ActiveEditable 0)) = ActiveEditable 0 /\
  editables (toolbar (ActiveEditable 0)) !! 0 = Some abc /\
  handleCount abc = length (tabs abc) /\
  exists ed',
    editables (toolbarAfter
                 (checkActiveTabs (Some range) (toolbar (ActiveEditable 0))))
      !! 0 = Some ed' /\
    length (tabs ed') = 3.
Proof.
  split; [reflexivity |]. split; [reflexivity |]. split; [reflexivity |].
  destruct (checkActiveTabs_sets_flags_to_answers (Some range)
              (toolbar (ActiveEditable 0)) 0 abc eq_refl eq_refl eq_refl)
    as (ed' & Hed' & Hlen & _).
  exists ed'. split; [exact Hed' | exact Hlen].
Defined.

(** The same selection reported twice. *)
Lemma checkActiveTabs_same_range_twice_witness :
  active (toolbar (ActiveEditable 0)) = ActiveEditable 0 /\
  editables (toolbar (ActiveEditable 0)) !! 0 = Some abc /\
  handleCount abc = length (tabs abc) /\
  toolbarAfter
    (checkActiveTabs (Some range)
       (toolbarAfter
          (checkActiveTabs (Some range) (toolbar (ActiveEditable 0)))))
  = toolbarAfter (checkActiveTabs (Some range) (toolbar (ActiveEditable 0))).
Proof.
  split; [reflexivity |]. split; [reflexivity |]. split; [reflexivity |].
  apply (checkActiveTabs_same_range_twice (Some range)
           (toolbar (ActiveEditable 0)) 0 abc eq_refl eq_refl eq_refl).
Defined.

(** With no active editable the editable [abc] is not touched. *)
Lemma checkActiveTabs_touches_active_editable_only_witness :
  active (toolbar ActiveFalse) <> ActiveEditable 0 /\
  editables (toolbarAfter (checkActiveTabs (Some range) (toolbar ActiveFalse)))
    !! 0 = Some abc.
Proof.
  assert (Hne : active (toolbar ActiveFalse) <> ActiveEditable 0)
    by discriminate.
  split; [exact Hne |].
  destruct (checkActiveTabs_touches_active_editable_only (Some range)
              (toolbar ActiveFalse)) as (_ & _ & _ & _ & _ & _ & _ & Hother).
  rewrite (Hother 0 Hne). reflexivity.
Defined.

(** The editable with no tab configured shows its unnamed tab. *)
Lemma unconfigured_editable_shows_unnamed_tab_witness :
  editables untouched !! 0 = Some (blankEditable []) /\
  exists ed t,
    editables
      (handleEvent tagIs (SelectionChanged (Some range))
         (handleEvent tagIs (EditableActivated 0) untouched)) !! 0 = Some ed /\
    tabs ed = [t] /\ activated t = true.
Proof.
  split; [reflexivity |].
  destruct (unconfigured_editable_shows_unnamed_tab tagIs (Some range)
              untouched 0 eq_refl) as (ed & t & He & Ht & Ha & _).
  exists ed, t. split; [exact He |]. split; [exact Ht | exact Ha].
Defined.

(** Deactivating B twice. *)
Lemma deactivate_twice_witness :
  wellFormed abc /\ deactivate 1 (deactivate 1 abc) = deactivate 1 abc.
Proof.
  split; [apply abc_wellFormed |].
  apply (deactivate_twice 1 abc abc_wellFormed).
Defined.


End Witnesses.
